(** * CineIndex: directory-listing parser and crawler

    A shallow embedding of [backend/app/media/parser.py] and
    [backend/app/media/crawler.py], and the properties of the parser, the
    crawl policy and the incremental re-crawl that follow from the code.

    Conventions of the embedding:
    - a Python [str] is a [string]; the case maps and the white-space class
      are the ones of the ASCII range, which is where every literal of the
      code lives; characters above 127 are carried through unchanged;
    - [Optional[str]] is [option string]; a Python list is a [list], extended
      at its end by [append];
    - an exception is a value of [exc]; the functions of [urllib.parse] and
      the page fetcher are not part of the repository and are variables of
      the sections that use them;
    - a BeautifulSoup document is a tree of [Node]s on which [find],
      [find_all], [get], [text] and [get_text] are defined;
    - the SQLite tables [dirs] and [media] are finite maps keyed by their
      unique column [url]. *)

From Stdlib Require Import Ascii String ZArith List Bool Lia.
From stdpp Require Import base tactics option list gmap fin_maps strings.

Set Warnings "-register-all,-clear-no-such-hyp".
Local Open Scope Z_scope.

(** ** Python strings *)

Abbreviation str := string.

Definition is_ascii_upper (c : ascii) : bool :=
  let n := N_of_ascii c in ((65 <=? n) && (n <=? 90))%N.

Definition is_ascii_lower (c : ascii) : bool :=
  let n := N_of_ascii c in ((97 <=? n) && (n <=? 122))%N.

Definition char_lower (c : ascii) : ascii :=
  if is_ascii_upper c then ascii_of_N (N_of_ascii c + 32) else c.

Definition char_upper (c : ascii) : ascii :=
  if is_ascii_lower c then ascii_of_N (N_of_ascii c - 32) else c.

(** [str.isspace] on the ASCII range: TAB, LF, VT, FF, CR, FS, GS, RS, US
    and the space. Python also strips the white space beyond ASCII (U+0085,
    U+00A0, U+2000 and the like), which this class leaves in place: a cell
    that holds only such characters is empty in the code and not here. *)
Definition is_py_space (c : ascii) : bool :=
  let n := N_of_ascii c in
  (((9 <=? n) && (n <=? 13)) || ((28 <=? n) && (n <=? 32)))%N.

(** [s.isascii()] *)
Definition is_ascii_char (c : ascii) : bool := (N_of_ascii c <? 128)%N.

Fixpoint is_ascii_str (s : str) : bool :=
  match s with
  | EmptyString => true
  | String c s' => is_ascii_char c && is_ascii_str s'
  end.

Fixpoint str_map (f : ascii -> ascii) (s : str) : str :=
  match s with
  | EmptyString => EmptyString
  | String c s' => String (f c) (str_map f s')
  end.

(** [s.lower()] and [s.upper()], exact on ASCII strings. Python maps the
    letters beyond ASCII too, some of them by context (a final sigma) or to
    ASCII letters (a dotless i); here they stay as they are. *)
Definition str_lower (s : str) : str := str_map char_lower s.
Definition str_upper (s : str) : str := str_map char_upper s.

(** [c in chars], the test [strip(chars)] makes on each character *)
Fixpoint char_in (chars : str) (c : ascii) : bool :=
  match chars with
  | EmptyString => false
  | String a chars' => Ascii.eqb a c || char_in chars' c
  end.

Fixpoint str_lstrip_by (p : ascii -> bool) (s : str) : str :=
  match s with
  | EmptyString => EmptyString
  | String c s' => if p c then str_lstrip_by p s' else s
  end.

Fixpoint str_rstrip_by (p : ascii -> bool) (s : str) : str :=
  match s with
  | EmptyString => EmptyString
  | String c s' =>
      match str_rstrip_by p s' with
      | EmptyString => if p c then EmptyString else String c EmptyString
      | r => String c r
      end
  end.

(** [s.strip()], [s.strip(chars)], [s.rstrip(chars)], [s.lstrip(chars)] *)
Definition str_strip (s : str) : str :=
  str_lstrip_by is_py_space (str_rstrip_by is_py_space s).
Definition str_strip_chars (chars s : str) : str :=
  str_lstrip_by (char_in chars) (str_rstrip_by (char_in chars) s).
Definition str_rstrip_chars (chars s : str) : str :=
  str_rstrip_by (char_in chars) s.
Definition str_lstrip_chars (chars s : str) : str :=
  str_lstrip_by (char_in chars) s.

(** [s.startswith(p)] *)
Fixpoint str_startswith (s p : str) {struct p} : bool :=
  match p, s with
  | EmptyString, _ => true
  | String a p', String b s' => Ascii.eqb a b && str_startswith s' p'
  | String _ _, EmptyString => false
  end.

(** [s.endswith(p)] *)
Fixpoint str_endswith (s p : str) : bool :=
  String.eqb s p ||
  match s with
  | EmptyString => false
  | String _ s' => str_endswith s' p
  end.

(** [sub in s] *)
Fixpoint str_contains (sub s : str) : bool :=
  str_startswith s sub ||
  match s with
  | EmptyString => false
  | String _ s' => str_contains sub s'
  end.

(** [s[n:]] for [n >= 0] *)
Fixpoint str_drop (n : nat) (s : str) : str :=
  match n, s with
  | O, _ => s
  | S n', String _ s' => str_drop n' s'
  | S _, EmptyString => EmptyString
  end.

(** [s.rfind(c)] for a one-character needle: the index of its last
    occurrence, [-1] when there is none. *)
Fixpoint str_rfind (c : ascii) (s : str) : Z :=
  match s with
  | EmptyString => -1
  | String a s' =>
      let r := str_rfind c s' in
      if 0 <=? r then r + 1 else if Ascii.eqb a c then 0 else -1
  end.

(** [s.split(c)] for a one-character separator: never the empty list. *)
Fixpoint str_split (c : ascii) (s : str) : list str :=
  match s with
  | EmptyString => [EmptyString]
  | String a s' =>
      match str_split c s' with
      | [] => [EmptyString]
      | w :: ws => if Ascii.eqb a c then EmptyString :: w :: ws
                   else String a w :: ws
      end
  end.

(** [l[-1]] on the result of a split, which has a last element. *)
Definition last_piece (l : list str) : str := List.last l EmptyString.

(** [x > y] on strings: code point by code point. *)
Definition str_gt (x y : str) : bool :=
  match String.compare x y with Gt => true | _ => false end.

(** [max(l)] for a non-empty list: the first of the greatest elements. *)
Definition py_max (first : str) (rest : list str) : str :=
  fold_left (fun best x => if str_gt x best then x else best) rest first.

(** [s or None] *)
Definition or_none (s : str) : option str :=
  match s with EmptyString => None | _ => Some s end.

(** ** Exceptions *)

Inductive PyExn : Type := IndexError | ValueError.

Inductive exc (A : Type) : Type :=
  | Ok (a : A)
  | Raise (e : PyExn).
Arguments Ok {A} a.
Arguments Raise {A} e.

#[global] Instance exc_ret : MRet exc := fun _ a => Ok a.
#[global] Instance exc_bind : MBind exc := fun _ _ f m =>
  match m with Ok a => f a | Raise e => Raise e end.

Definition default_to {A} (d : A) (o : option A) : A :=
  match o with Some a => a | None => d end.

(** [l[i]] *)
Definition py_index {A} (l : list A) (i : nat) : exc A :=
  match l !! i with Some x => Ok x | None => Raise IndexError end.

(** A [for] loop whose body threads the loop's variables and may raise. *)
Fixpoint for_each {A S} (body : A -> S -> exc S) (l : list A) (s : S) : exc S :=
  match l with
  | [] => Ok s
  | x :: l' =>
      match body x s with
      | Ok s' => for_each body l' s'
      | Raise e => Raise e
      end
  end.

(** ** BeautifulSoup documents *)

Inductive Node : Type :=
  | Tag (name : str) (attrs : list (str * str)) (contents : list Node)
  | NavigableString (s : str).

(** [tag.descendants]: every node below the tag, in document order. *)
Fixpoint descendants (n : Node) : list Node :=
  match n with
  | Tag _ _ cs => flat_map (fun c => c :: descendants c) cs
  | NavigableString _ => []
  end.

(** [attrs.get(key)] on the attribute dictionary of a tag *)
Fixpoint dict_get (attrs : list (str * str)) (key : str) : option str :=
  match attrs with
  | [] => None
  | (k, v) :: attrs' => if String.eqb k key then Some v else dict_get attrs' key
  end.

(** [tag.get(key, default)] *)
Definition get (n : Node) (key default : str) : str :=
  match n with
  | Tag _ attrs _ => default_to default (dict_get attrs key)
  | NavigableString _ => default
  end.

Definition is_tag (name : str) (n : Node) : bool :=
  match n with
  | Tag nm _ _ => String.eqb nm name
  | NavigableString _ => false
  end.

Definition has_id (id : str) (n : Node) : bool :=
  match n with
  | Tag _ attrs _ =>
      match dict_get attrs "id" with Some v => String.eqb v id | None => false end
  | NavigableString _ => false
  end.

(** [tag.find_all(name)], [tag.find(name)] and [tag.find(name, id=id)] *)
Definition find_all (name : str) (n : Node) : list Node :=
  List.filter (is_tag name) (descendants n).
Definition find (name : str) (n : Node) : option Node :=
  head (find_all name n).
Definition find_id (name id : str) (n : Node) : option Node :=
  head (List.filter (fun x => is_tag name x && has_id id x) (descendants n)).

(** The strings below a tag, in document order. *)
Definition all_strings (n : Node) : list str :=
  flat_map (fun x => match x with NavigableString s => [s] | Tag _ _ _ => [] end)
           (descendants n).

(** [tag.text] *)
Definition text (n : Node) : str := String.concat "" (all_strings n).

(** [tag.get_text(strip=True)]: every string stripped, the empty ones
    dropped, the rest joined. *)
Definition get_text_strip (n : Node) : str :=
  String.concat ""
    (List.filter (fun s => negb (String.eqb s "")) (map str_strip (all_strings n))).

(** ** parser.py *)

Record ParsedDirEntry : Type := mkParsedDirEntry {
  de_name : str;
  de_url : str;
  de_modified : option str }.

Record ParsedFileEntry : Type := mkParsedFileEntry {
  fe_name : str;
  fe_url : str;
  fe_modified : option str;
  fe_size : option str }.

Record ParsedPage : Type := mkParsedPage {
  dir_modified : option str;
  subdirs : list ParsedDirEntry;
  files : list ParsedFileEntry }.

(** The three lists a row loop appends to. *)
Record RowLists : Type := mkRowLists {
  l_subdirs : list ParsedDirEntry;
  l_files : list ParsedFileEntry;
  l_times : list str }.

Definition no_rows : RowLists := mkRowLists [] [] [].

(** [if modified: times.append(modified)] *)
Definition append_time (times : list str) (modified : option str) : list str :=
  match modified with
  | Some (String c m) => times ++ [String c m]
  | _ => times
  end.

(** [dir_modified = max(times) if times else None], then the page *)
Definition page_of (st : RowLists) : ParsedPage :=
  mkParsedPage
    (match l_times st with [] => None | t :: ts => Some (py_max t ts) end)
    (l_subdirs st) (l_files st).

(** The six-field result of [urllib.parse.urlparse]. *)
Record ParseResult : Type := mkParseResult {
  scheme : str; netloc : str; path : str;
  params : str; query : str; fragment : str }.

(** [parsed._replace(fragment=f)] *)
Definition _replace_fragment (p : ParseResult) (f : str) : ParseResult :=
  mkParseResult (scheme p) (netloc p) (path p) (params p) (query p) f.

Section Parser.
(** [urllib.parse]: [urljoin] and [urlparse] raise [ValueError] on some
    malformed URLs; [urlunparse] and [unquote] always return. *)
Variable urljoin : str -> str -> exc str.
Variable urlparse : str -> exc ParseResult.
Variable urlunparse : ParseResult -> str.
Variable unquote : str -> str.

Definition _normalize_url (base href : str) : exc str :=
  url ← urljoin base href;
  parsed ← urlparse url;
  let parsed := _replace_fragment parsed "" in
  mret (urlunparse parsed).

Definition _decode_name (text : str) : str := unquote (str_strip text).

(** The body of the loop of [_parse_generic_table]. *)
Definition generic_row (base_url : str) (tr : Node) (st : RowLists) : exc RowLists :=
  let tds := find_all "td" tr in
  if (length tds <? 2)%nat then Ok st else
  td0 ← py_index tds 0;
  let img := find "img" td0 in
  let alt := match img with Some img => get img "alt" "" | None => "" end in
  name_td ← py_index tds 1;
  match find "a" name_td with
  | None => Ok st
  | Some a =>
      let href := get a "href" "" in
      let label := str_strip (text a) in
      if str_startswith (str_upper alt) "[PARENTDIR]"
         || bool_decide (href ∈ ["../"; ".."])
      then Ok st else
      modified ← (if (3 <=? length tds)%nat
                  then td ← py_index tds 2; mret (or_none (get_text_strip td))
                  else mret None);
      size ← (if (4 <=? length tds)%nat
              then td ← py_index tds 3; mret (or_none (get_text_strip td))
              else mret None);
      let times := append_time (l_times st) modified in
      url ← _normalize_url base_url href;
      let decoded_name := _decode_name label in
      let is_dir := str_endswith href "/"
                    || str_contains "[DIR]" (str_upper alt)
                    || str_contains "folder" (str_lower alt) in
      if is_dir
      then Ok (mkRowLists
                 (l_subdirs st ++ [mkParsedDirEntry decoded_name url modified])
                 (l_files st) times)
      else Ok (mkRowLists
                 (l_subdirs st)
                 (l_files st ++ [mkParsedFileEntry decoded_name url modified size])
                 times)
  end.

Definition _parse_generic_table (soup : Node) (base_url : str) : exc ParsedPage :=
  match find "table" soup with
  | None => Ok (mkParsedPage None [] [])
  | Some table =>
      st ← for_each (generic_row base_url) (find_all "tr" table) no_rows;
      mret (page_of st)
  end.

(** The body of the loop of [_parse_h5ai_fallback]. *)
Definition h5ai_row (base_url : str) (tr : Node) (st : RowLists) : exc RowLists :=
  let tds := find_all "td" tr in
  if (length tds <? 4)%nat then Ok st else
  name_td ← py_index tds 1;
  match find "a" name_td with
  | None => Ok st
  | Some a =>
      let href := get a "href" "" in
      let label := str_strip (text a) in
      if String.eqb href ".." || str_contains "Parent Directory" label
      then Ok st else
      td2 ← py_index tds 2;
      let modified := or_none (get_text_strip td2) in
      td3 ← py_index tds 3;
      let size := or_none (get_text_strip td3) in
      let times := append_time (l_times st) modified in
      td0 ← py_index tds 0;
      let img := find "img" td0 in
      let alt := match img with Some img => get img "alt" "" | None => "" end in
      url ← _normalize_url base_url href;
      let decoded_name := _decode_name label in
      let is_dir := str_endswith href "/" || str_contains "folder" (str_lower alt) in
      if is_dir
      then Ok (mkRowLists
                 (l_subdirs st ++ [mkParsedDirEntry decoded_name url modified])
                 (l_files st) times)
      else Ok (mkRowLists
                 (l_subdirs st)
                 (l_files st ++ [mkParsedFileEntry decoded_name url modified size])
                 times)
  end.

Definition _parse_h5ai_fallback (soup : Node) (base_url : str) : exc ParsedPage :=
  match find_id "div" "fallback" soup with
  | None => Ok (mkParsedPage None [] [])
  | Some fb =>
      match find "table" fb with
      | None => Ok (mkParsedPage None [] [])
      | Some table =>
          st ← for_each (h5ai_row base_url) (find_all "tr" table) no_rows;
          mret (page_of st)
      end
  end.

(** The body of the loop of [_parse_discovery_datatable]. *)
Definition datatable_row (base_url : str) (tr : Node) (st : RowLists) : exc RowLists :=
  let tds := find_all "td" tr in
  if (length tds <? 2)%nat then Ok st else
  name_td ← py_index tds 1;
  match find "a" name_td with
  | None => Ok st
  | Some a =>
      let href := get a "href" "" in
      let label := str_strip (text a) in
      if bool_decide (href ∈ [".."; "../"]) || str_contains "Parent Directory" label
      then Ok st else
      size ← (if (4 <=? length tds)%nat
              then td ← py_index tds 3; mret (or_none (get_text_strip td))
              else mret None);
      modified ← (if (5 <=? length tds)%nat
                  then td ← py_index tds 4; mret (or_none (get_text_strip td))
                  else mret None);
      let times := append_time (l_times st) modified in
      url ← _normalize_url base_url href;
      let decoded_name := _decode_name label in
      let is_dir := str_endswith href "/"
                    && match size with None => true | Some s => String.eqb s "" end in
      if is_dir
      then Ok (mkRowLists
                 (l_subdirs st ++ [mkParsedDirEntry decoded_name url modified])
                 (l_files st) times)
      else Ok (mkRowLists
                 (l_subdirs st)
                 (l_files st ++ [mkParsedFileEntry decoded_name url modified size])
                 times)
  end.

(** [tbody = table.find("tbody") or table] *)
Definition tbody_or_table (table : Node) : Node :=
  match find "tbody" table with Some tbody => tbody | None => table end.

Definition _parse_discovery_datatable (soup : Node) (base_url : str) : exc ParsedPage :=
  match find_id "table" "example" soup with
  | None => Ok (mkParsedPage None [] [])
  | Some table =>
      let tbody := tbody_or_table table in
      st ← for_each (datatable_row base_url) (find_all "tr" tbody) no_rows;
      mret (page_of st)
  end.

(** [BeautifulSoup(html, "html.parser")] *)
Variable BeautifulSoup : str -> Node.

Definition parse_directory_page (html base_url : str) : exc ParsedPage :=
  let soup := BeautifulSoup html in
  match find_id "div" "fallback" soup with
  | Some _ => _parse_h5ai_fallback soup base_url
  | None =>
      match find_id "table" "example" soup with
      | Some _ => _parse_discovery_datatable soup base_url
      | None => _parse_generic_table soup base_url
      end
  end.
End Parser.

(** ** crawler.py *)

Record RootConfig : Type := mkRootConfig {
  root_url : str;
  cookie_file : option str }.

Record CrawlConfig : Type := mkCrawlConfig {
  video_exts : list str;
  blocked_dirs : list str }.

(** The two keys [load_crawl_config] reads from the raw dictionary, each
    defaulting to the empty list. *)
Record RawCrawlConfig : Type := mkRawCrawlConfig {
  raw_video_extensions : list str;
  raw_blocked_dirs : list str }.

Definition normalize_root_url (url : str) : str :=
  (str_rstrip_chars "/" url ++ "/")%string.

Definition load_crawl_config (raw_cfg : RawCrawlConfig) : CrawlConfig :=
  let exts := map (fun e => str_lstrip_chars "." (str_lower e))
                  (raw_video_extensions raw_cfg) in
  let blocked := map (fun b => str_lower (str_strip b)) (raw_blocked_dirs raw_cfg) in
  mkCrawlConfig exts blocked.

Definition _path_from_root (root_url dir_url : str) : str :=
  let r := normalize_root_url root_url in
  if negb (str_startswith dir_url r) then "/"
  else
    let rel := str_rstrip_chars "/" (str_drop (String.length r) dir_url) in
    match rel with
    | EmptyString => "/"
    | _ => ("/" ++ rel)%string
    end.

Definition _is_blocked_dir (path : str) (cfg : CrawlConfig) : bool :=
  match blocked_dirs cfg with
  | [] => false
  | _ =>
      let last := str_lower (last_piece (str_split "/" (str_strip_chars "/" path))) in
      bool_decide (last ∈ blocked_dirs cfg)
  end.

Definition _should_keep_file (filename : str) (cfg : CrawlConfig) : bool :=
  match video_exts cfg with
  | [] => true
  | _ =>
      let lower := str_lower filename in
      let dot := str_rfind "." lower in
      if dot =? -1 then false
      else
        let ext := str_drop (Z.to_nat (dot + 1)) lower in
        bool_decide (ext ∈ video_exts cfg)
  end.

(** *** The index store

    Modelled from the spec: the schema of the tables lives in [app/db.py],
    which is not among the sources; [dirs] and [media] each have [url] as
    their unique key (the conflict target of the two upserts), and the other
    columns are the ones the statements of [crawl_root] name. *)

Record DirRow : Type := mkDirRow {
  d_root : str;
  d_parent : option str;
  d_name : str;
  d_modified : option str }.

Record MediaRow : Type := mkMediaRow {
  m_root : str;
  m_path : str;
  m_filename : str;
  m_modified : option str;
  m_size : option str }.

Record Store : Type := mkStore {
  dirs : gmap str DirRow;
  media : gmap str MediaRow }.

(** [DELETE FROM media WHERE root = ?] *)
Definition delete_media_for_root (root : str) (db : Store) : Store :=
  mkStore (dirs db) (filter (fun kv => m_root kv.2 ≠ root) (media db)).

(** [DELETE FROM dirs WHERE root = ?] *)
Definition delete_dirs_for_root (root : str) (db : Store) : Store :=
  mkStore (filter (fun kv => d_root kv.2 ≠ root) (dirs db)) (media db).

(** [SELECT modified FROM dirs WHERE url = ?], then [fetchone()] and the
    column of the row. *)
Definition select_dir_modified (url : str) (db : Store) : option (option str) :=
  d_modified <$> dirs db !! url.

(** [INSERT INTO dirs ... ON CONFLICT(url) DO UPDATE SET ...] *)
Definition upsert_dir (url : str) (row : DirRow) (db : Store) : Store :=
  mkStore (<[url := row]> (dirs db)) (media db).

(** [DELETE FROM media WHERE root = ? AND path = ?] *)
Definition delete_media_for_path (root path : str) (db : Store) : Store :=
  mkStore (dirs db)
          (filter (fun kv => ¬ (m_root kv.2 = root ∧ m_path kv.2 = path)) (media db)).

(** [INSERT INTO media ... ON CONFLICT(url) DO UPDATE SET ...] *)
Definition upsert_media (url : str) (row : MediaRow) (db : Store) : Store :=
  mkStore (dirs db) (<[url := row]> (media db)).

(** What a run does to the outside, in the order it does it. *)
Inductive Event : Type :=
  | EvDeleteMediaForRoot (root : str)
  | EvDeleteDirsForRoot (root : str)
  | EvCommit
  | EvFetch (url : str)
  | EvSelectDir (url : str)
  | EvUpsertDir (url : str) (row : DirRow)
  | EvDeleteMediaForPath (root path : str)
  | EvUpsertMedia (url : str) (row : MediaRow).

Definition is_bulk_delete (e : Event) : bool :=
  match e with
  | EvDeleteMediaForRoot _ | EvDeleteDirsForRoot _ => true
  | _ => false
  end.

Definition is_media_write (e : Event) : bool :=
  match e with
  | EvDeleteMediaForRoot _ | EvDeleteMediaForPath _ _ | EvUpsertMedia _ _ => true
  | _ => false
  end.

Definition is_store_write (e : Event) : bool :=
  match e with
  | EvDeleteMediaForRoot _ | EvDeleteDirsForRoot _ | EvUpsertDir _ _
  | EvDeleteMediaForPath _ _ | EvUpsertMedia _ _ => true
  | _ => false
  end.

Definition is_fetch (e : Event) : bool :=
  match e with EvFetch _ => true | _ => false end.

Section Crawler.
Variable urljoin : str -> str -> exc str.
Variable urlparse : str -> exc ParseResult.
Variable urlunparse : ParseResult -> str.
Variable unquote : str -> str.
Variable BeautifulSoup : str -> Node.

(** The servers behind the session: [_fetch_page] is [session.get] with
    every exception turned into [None]. *)
Variable World : Type.
Variable _fetch_page : World -> str -> World * option str.

(** The variables of [crawl_root] that its loop changes. *)
Record Crawl : Type := mkCrawl {
  db : Store;
  events : list Event;
  world : World;
  queue : list (str * option str);
  processed_dirs : Z;
  inserted_files : Z;
  skipped_dirs : Z }.

(** [cur.execute(...)] for a statement that succeeds. An error of the store
    in [execute] or [commit] would leave [crawl_root] as an exception at that
    statement: the runs followed here are those whose statements succeed. *)
Definition execute (e : Event) (f : Store -> Store) (st : Crawl) : Crawl :=
  mkCrawl (f (db st)) (events st ++ [e]) (world st) (queue st)
          (processed_dirs st) (inserted_files st) (skipped_dirs st).

Definition commit (st : Crawl) : Crawl := execute EvCommit id st.

Definition with_world (w : World) (st : Crawl) : Crawl :=
  mkCrawl (db st) (events st) w (queue st)
          (processed_dirs st) (inserted_files st) (skipped_dirs st).

Definition with_queue (q : list (str * option str)) (st : Crawl) : Crawl :=
  mkCrawl (db st) (events st) (world st) q
          (processed_dirs st) (inserted_files st) (skipped_dirs st).

Definition with_counters (p i s : Z) (st : Crawl) : Crawl :=
  mkCrawl (db st) (events st) (world st) (queue st) p i s.

(** How one pass through the body of the [while] loop ends. *)
Inductive Pass : Type :=
  | Continue (st : Crawl)
  | Propagate (e : PyExn) (st : Crawl).

Section Run.
Variable root_cfg : RootConfig.
Variable cfg : CrawlConfig.
Variable incremental : bool.

(** The loop over [parsed.files]; the counter is [batch_files]. *)
Definition insert_file (rel_path : str) (f : ParsedFileEntry)
    (acc : Crawl * Z) : Crawl * Z :=
  let '(st, batch_files) := acc in
  if negb (_should_keep_file (fe_name f) cfg) then (st, batch_files)
  else
    let row := mkMediaRow (root_url root_cfg) rel_path (fe_name f)
                          (fe_modified f) (fe_size f) in
    (execute (EvUpsertMedia (fe_url f) row) (upsert_media (fe_url f) row) st,
     batch_files + 1).

(** The part of the body after the incremental check. *)
Definition reindex (dir_url : str) (parent_url : option str) (rel_path : str)
    (parsed : ParsedPage) (st : Crawl) : Crawl :=
  let row := mkDirRow (root_url root_cfg) parent_url
               (if negb (String.eqb rel_path "/")
                then last_piece (str_split "/" rel_path) else "")
               (dir_modified parsed) in
  let st := execute (EvUpsertDir dir_url row) (upsert_dir dir_url row) st in
  let st := execute (EvDeleteMediaForPath (root_url root_cfg) rel_path)
                    (delete_media_for_path (root_url root_cfg) rel_path) st in
  let '(st, batch_files) :=
    fold_left (fun acc f => insert_file rel_path f acc) (files parsed) (st, 0) in
  let st := with_counters (processed_dirs st + 1)
                          (inserted_files st + batch_files)
                          (skipped_dirs st) st in
  let st := with_queue
              (queue st ++ map (fun d => (de_url d, Some dir_url)) (subdirs parsed))
              st in
  if processed_dirs st mod 20 =? 0 then commit st else st.

(** The body of [while queue], after [queue.pop(0)] has taken [item]. *)
Definition crawl_pass (item : str * option str) (st : Crawl) : Pass :=
  let '(dir_url, parent_url) := item in
  let rel_path := _path_from_root (root_url root_cfg) dir_url in
  if _is_blocked_dir rel_path cfg then Continue st
  else
    let '(w, html) := _fetch_page (world st) dir_url in
    let st := with_world w (execute (EvFetch dir_url) id st) in
    match html with
    | None => Continue st
    | Some html =>
        match parse_directory_page urljoin urlparse urlunparse unquote
                BeautifulSoup html dir_url with
        | Raise e => Propagate e st
        | Ok parsed =>
            if incremental then
              let row := select_dir_modified dir_url (db st) in
              let st := execute (EvSelectDir dir_url) id st in
              match row with
              | Some modified =>
                  if bool_decide (modified = dir_modified parsed)
                  then Continue (with_counters (processed_dirs st) (inserted_files st)
                                               (skipped_dirs st + 1) st)
                  else Continue (reindex dir_url parent_url rel_path parsed st)
              | None => Continue (reindex dir_url parent_url rel_path parsed st)
              end
            else Continue (reindex dir_url parent_url rel_path parsed st)
        end
    end.

(** How a run of at most [fuel] passes ends. *)
Inductive Outcome : Type :=
  | Drained
  | Raised (e : PyExn)
  | StillRunning.

Fixpoint crawl_loop (fuel : nat) (st : Crawl) : Crawl * Outcome :=
  match queue st with
  | [] => (st, Drained)
  | item :: rest =>
      match fuel with
      | O => (st, StillRunning)
      | S fuel' =>
          match crawl_pass item (with_queue rest st) with
          | Continue st' => crawl_loop fuel' st'
          | Propagate e st' => (st', Raised e)
          end
      end
  end.

(** The statements of [crawl_root] before its loop. *)
Definition crawl_start (conn : Store) (w : World) : Crawl :=
  let st := mkCrawl conn [] w [] 0 0 0 in
  let st :=
    if negb incremental then
      let st := execute (EvDeleteMediaForRoot (root_url root_cfg))
                        (delete_media_for_root (root_url root_cfg)) st in
      let st := execute (EvDeleteDirsForRoot (root_url root_cfg))
                        (delete_dirs_for_root (root_url root_cfg)) st in
      commit st
    else st in
  with_queue (queue st ++ [(root_url root_cfg, None)]) st.

(** [crawl_root], cut after [fuel] passes of its loop; the commit after
    the loop happens when the queue has drained. *)
Definition crawl_root (fuel : nat) (conn : Store) (w : World) : Crawl * Outcome :=
  match crawl_loop fuel (crawl_start conn w) with
  | (st, Drained) => (commit st, Drained)
  | r => r
  end.
End Run.
End Crawler.

Arguments db {World} _.
Arguments events {World} _.
Arguments world {World} _.
Arguments queue {World} _.
Arguments processed_dirs {World} _.
Arguments inserted_files {World} _.
Arguments skipped_dirs {World} _.
Arguments mkCrawl {World} _ _ _ _ _ _ _.
Arguments execute {World} _ _ _.
Arguments commit {World} _.
Arguments with_world {World} _ _.
Arguments with_queue {World} _ _.
Arguments with_counters {World} _ _ _ _.
Arguments Continue {World} _.
Arguments Propagate {World} _ _.

(** ** More of crawler.py and its caller *)

(** An entry of roots.json, with the keys the code reads: a missing key is
    [None], and the values are strings. *)
Record RawRoot : Type := mkRawRoot {
  raw_url : option str;
  raw_cookie : option str;
  raw_tag : option str }.

Section RootConfigs.
(** [Path.expanduser], [Path.is_absolute] and [backend_root / path], on
    paths written as strings. *)
Variable expanduser : str -> str.
Variable is_absolute : str -> bool.
Variable path_join : str -> str -> str.

(** The body of the loop of [load_root_configs]. *)
Definition load_root (backend_root : str) (roots : list RootConfig) (r : RawRoot)
    : list RootConfig :=
  let url := str_strip (default_to "" (raw_url r)) in
  if String.eqb url "" then roots
  else
    let url := normalize_root_url url in
    let cookie_val := str_strip (default_to "" (raw_cookie r)) in
    let cookie_file :=
      if String.eqb cookie_val "" then None
      else
        let cookie_file := expanduser cookie_val in
        Some (if negb (is_absolute cookie_file)
              then path_join backend_root cookie_file else cookie_file) in
    roots ++ [mkRootConfig url cookie_file].

Definition load_root_configs (raw_roots : list RawRoot) (backend_root : str)
    : list RootConfig :=
  fold_left (load_root backend_root) raw_roots [].
End RootConfigs.

Section RootTags.
Variable urlparse : str -> exc ParseResult.

(** The body of the loop of [build_root_tag_map] of main.py. *)
Definition root_tag (r : RawRoot) (mapping : gmap str str) : exc (gmap str str) :=
  let url := str_strip (default_to "" (raw_url r)) in
  if String.eqb url "" then Ok mapping
  else
    let norm := normalize_root_url url in
    let tag := str_strip (default_to "" (raw_tag r)) in
    tag ← (if String.eqb tag "" then
             parsed ← urlparse norm;
             let path_str := str_strip_chars "/" (path parsed) in
             if negb (String.eqb path_str "")
             then mret (last_piece (str_split "/" path_str))
             else mret (netloc parsed)
           else mret tag);
    mret (<[norm := tag]> mapping).

(** [build_root_tag_map], on the entries [load_roots_config] has read. *)
Definition build_root_tag_map (roots_raw : list RawRoot) : exc (gmap str str) :=
  match roots_raw with
  | [] => Ok ∅
  | _ => for_each root_tag roots_raw ∅
  end.
End RootTags.

(** The tag of a root: the one that is written, or the last piece of the
    path of its URL, or its host when the path is empty. *)
Definition tag_of_root_ok (urlparse : str -> exc ParseResult)
    (r : RawRoot) (norm tag : str) : Prop :=
  norm = normalize_root_url (str_strip (default_to "" (raw_url r)))
  /\ str_strip (default_to "" (raw_url r)) <> ""
  /\ (str_strip (default_to "" (raw_tag r)) <> ""
      /\ tag = str_strip (default_to "" (raw_tag r))
      \/ str_strip (default_to "" (raw_tag r)) = ""
         /\ exists p, urlparse norm = Ok p
            /\ (str_strip_chars "/" (path p) = "" /\ tag = netloc p
                \/ str_strip_chars "/" (path p) <> ""
                   /\ tag = last_piece (str_split "/" (str_strip_chars "/" (path p)))
                   /\ str_contains "/" tag = false)).

(** The rows a run writes are rows of its root, under a path that starts
    with [/]; what it deletes, it deletes from its root. *)
Definition event_of_root (root : str) (e : Event) : bool :=
  match e with
  | EvDeleteMediaForRoot r | EvDeleteDirsForRoot r => String.eqb r root
  | EvUpsertDir _ row => String.eqb (d_root row) root
  | EvDeleteMediaForPath r p => String.eqb r root && str_startswith p "/"
  | EvUpsertMedia _ row => String.eqb (m_root row) root && str_startswith (m_path row) "/"
  | EvCommit | EvFetch _ | EvSelectDir _ => true
  end.

(** The directory row the crawl writes for a page. *)
Definition dir_row_of (root dir_url : str) (parent_url : option str)
    (parsed : ParsedPage) : DirRow :=
  let rel_path := _path_from_root root dir_url in
  mkDirRow root parent_url
    (if negb (String.eqb rel_path "/") then last_piece (str_split "/" rel_path) else "")
    (dir_modified parsed).

(** The media row the crawl writes for a file of a page. *)
Definition media_row_of (root rel_path : str) (f : ParsedFileEntry) : MediaRow :=
  mkMediaRow root rel_path (fe_name f) (fe_modified f) (fe_size f).

(** ** What the properties speak of *)

(** From [st] to [st'] the run has done some things to the outside, none of
    them of the kind [kind]. *)
Definition only_adds {World} (kind : Event -> bool) (st st' : Crawl World) : Prop :=
  exists evs, events st' = events st ++ evs /\ Forall (fun e => kind e = false) evs.

(** No row of the store belongs to [root]. *)
Definition no_rows_of (root : str) (s : Store) : Prop :=
  (forall url r, dirs s !! url = Some r -> d_root r <> root)
  /\ (forall url r, media s !! url = Some r -> m_root r <> root).


(** The href, the label and the icon text the three row loops read from a
    row, when the row has the cells and the link they are read from. *)
Definition row_href (tr : Node) : option str :=
  name_td ← find_all "td" tr !! 1%nat;
  a ← find "a" name_td;
  Some (get a "href" "").

Definition row_label (tr : Node) : option str :=
  name_td ← find_all "td" tr !! 1%nat;
  a ← find "a" name_td;
  Some (str_strip (text a)).

Definition row_alt (tr : Node) : str :=
  match find_all "td" tr !! 0%nat with
  | Some td0 =>
      match find "img" td0 with
      | Some img => get img "alt" ""
      | None => ""
      end
  | None => ""
  end.

(** The stripped text of cell [i] of a row; none when the row has no such
    cell or the cell has no text. *)
Definition cell_text (tr : Node) (i : nat) : option str :=
  td ← find_all "td" tr !! i; or_none (get_text_strip td).

(** The lists of [st] followed by the lists of [d]. *)
Definition merge (st d : RowLists) : RowLists :=
  mkRowLists (l_subdirs st ++ l_subdirs d) (l_files st ++ l_files d)
             (l_times st ++ l_times d).

(** What a row adds to the lists, run on empty lists. *)
Definition emits (body : Node -> RowLists -> exc RowLists) (tr : Node)
    (sd : list ParsedDirEntry) (fs : list ParsedFileEntry) : Prop :=
  exists ts, body tr no_rows = Ok (mkRowLists sd fs ts).

(** A row is accepted as an entry when it adds one. *)
Definition accepted (body : Node -> RowLists -> exc RowLists) (tr : Node) : Prop :=
  exists sd fs, emits body tr sd fs /\ (sd <> [] \/ fs <> []).

(** The row [tr], between the rows [before] and [after], lands in the
    subdirs of the page and adds nothing to its files. *)
Definition in_subdirs_only (body : Node -> RowLists -> exc RowLists)
    (before : list Node) (tr : Node) (after : list Node) (page : ParsedPage) : Prop :=
  exists e p1 p2,
    emits body tr [e] []
    /\ for_each body before no_rows = Ok p1
    /\ for_each body after no_rows = Ok p2
    /\ subdirs page = l_subdirs p1 ++ e :: l_subdirs p2
    /\ files page = l_files p1 ++ l_files p2.

(** The page a row loop yields on a list of rows. *)
Definition page_of_rows (body : Node -> RowLists -> exc RowLists)
    (rows : list Node) : exc ParsedPage :=
  st ← for_each body rows no_rows; mret (page_of st).


(** [url] is what [_normalize_url] makes of some href on the page at [base]:
    a URL put together again without a fragment. *)
Definition normalised_url (urljoin : str -> str -> exc str)
    (urlparse : str -> exc ParseResult) (urlunparse : ParseResult -> str)
    (base url : str) : Prop :=
  exists href p,
    _normalize_url urljoin urlparse urlunparse base href = Ok url
    /\ url = urlunparse p /\ fragment p = "".

Definition urls_ok (urljoin : str -> str -> exc str)
    (urlparse : str -> exc ParseResult) (urlunparse : ParseResult -> str)
    (base : str) (d : RowLists) : Prop :=
  Forall (fun e => normalised_url urljoin urlparse urlunparse base (de_url e))
         (l_subdirs d)
  /\ Forall (fun f => normalised_url urljoin urlparse urlunparse base (fe_url f))
            (l_files d).



(** The parent-directory rows each loop looks for. *)
Definition generic_parent_marker (tr : Node) : Prop :=
  str_startswith (str_upper (row_alt tr)) "[PARENTDIR]" = true
  \/ row_href tr = Some ".." \/ row_href tr = Some "../".

Definition h5ai_parent_marker (tr : Node) : Prop :=
  row_href tr = Some ".."
  \/ exists label, row_label tr = Some label
                   /\ str_contains "Parent Directory" label = true.

Definition datatable_parent_marker (tr : Node) : Prop :=
  row_href tr = Some ".." \/ row_href tr = Some "../"
  \/ exists label, row_label tr = Some label
                   /\ str_contains "Parent Directory" label = true.

(** The last segment of a root-relative path, as [_is_blocked_dir] takes it. *)
Definition final_segment (path : str) : str :=
  last_piece (str_split "/" (str_strip_chars "/" path)).

(** Stand-ins for [urllib.parse] and for the HTML parser, to run the
    functions on examples: they agree with the library on a base that ends in
    [/] joined with a plain relative href, and on URLs without a fragment. *)
Definition demo_urljoin (base href : str) : exc str := Ok (base +:+ href).
Definition demo_urlparse (url : str) : exc ParseResult :=
  Ok (mkParseResult "" "" url "" "" "").
Definition demo_urlunparse (p : ParseResult) : str :=
  scheme p +:+ netloc p +:+ path p +:+ params p +:+ query p +:+ fragment p.
Definition demo_unquote (s : str) : str := s.

(** Documents for the examples. *)
Definition td (cs : list Node) : Node := Tag "td" [] cs.
Definition cell (s : str) : Node := Tag "td" [] [NavigableString s].
Definition icon (alt : str) : Node := Tag "img" [("alt", alt)] [].
Definition link (href label : str) : Node :=
  Tag "a" [("href", href)] [NavigableString label].
Definition row (cells : list Node) : Node := Tag "tr" [] cells.
Definition document (cs : list Node) : Node := Tag "[document]" [] cs.

(** A DataTables listing: the parent row, a directory with a size, a file,
    a directory without a size. *)
Definition datatable_parent_row : Node := row [td []; td [link "../" "Up"]].
Definition sized_dir_row : Node :=
  row [td []; td [link "A/" "A"]; td []; cell "4K"; cell "2024-01-01"].
Definition datatable_file_row : Node :=
  row [td []; td [link "b.mkv" "b.mkv"]; td []; cell "700M"; cell "2024-01-02"].
Definition unsized_dir_row : Node :=
  row [td []; td [link "C/" "C"]; td []; cell " "].
Definition datatable_page : Node :=
  document [Tag "table" [("id", "example")]
    [datatable_parent_row; sized_dir_row; datatable_file_row; unsized_dir_row]].

(** An autoindex listing: the header, the parent row by its icon, a
    directory, a file, and a row that is a parent directory by its label
    only. *)
Definition header_row : Node := row [Tag "th" [] [NavigableString "Name"]].
Definition icon_parent_row : Node :=
  row [td [icon "[PARENTDIR]"]; td [link "/" "Parent Directory"]].
Definition dir_row : Node :=
  row [td [icon "[DIR]"]; td [link "A/" "A"]; cell "2024-01-01"; cell "-"].
Definition file_row : Node :=
  row [td [icon "[VID]"]; td [link "b.mkv" "b.mkv"]; cell "2024-01-02"; cell "700M"].
Definition labelled_parent_row : Node :=
  row [td []; td [link "up/" "Parent Directory"]; td []].
Definition generic_page : Node :=
  document [Tag "table" []
    [header_row; icon_parent_row; dir_row; file_row; labelled_parent_row]].

(** An h5ai fallback listing. *)
Definition h5ai_parent_row : Node :=
  row [td []; td [link ".." "Parent Directory"]; td []; td []].
Definition h5ai_dir_row : Node :=
  row [td [icon "folder"]; td [link "A/" "A"]; cell "2024-01-01"; td []].
Definition h5ai_file_row : Node :=
  row [td [icon "file"]; td [link "b.mkv" "b.mkv"]; cell "2024-01-02"; cell "700M"].
Definition h5ai_page : Node :=
  document [Tag "div" [("id", "fallback")]
    [Tag "table" [] [h5ai_parent_row; h5ai_dir_row; h5ai_file_row]]].

(** A stand-in for the HTML parser: the names of the example listings stand
    for their documents, and any other text is a document of that text, which
    is what the parser makes of text without markup. *)
Definition demo_BeautifulSoup (html : str) : Node :=
  if String.eqb html "<generic>" then generic_page
  else if String.eqb html "<h5ai>" then h5ai_page
  else if String.eqb html "<datatable>" then datatable_page
  else document [NavigableString html].

(** A stand-in for the servers: a site of three listings, every other URL
    failing to load. *)
Definition demo_fetch_page (w : unit) (url : str) : unit * option str :=
  (w, if String.eqb url "http://x/Movies/" then Some "<generic>"
      else if String.eqb url "http://x/Movies/A/" then Some "<datatable>"
      else if String.eqb url "http://x/Movies/Empty/" then Some "no listing here"
      else None).

Definition demo_root : RootConfig := mkRootConfig "http://x/Movies/" None.
Definition demo_cfg : CrawlConfig :=
  load_crawl_config (mkRawCrawlConfig [".MKV"; "mp4"] [" Extras "]).

(** More stand-ins, for the examples of what follows: a [urljoin] that
    rejects, as the library does, an href with an unclosed bracket in its
    host; a listing with such a link; a document whose fallback container
    holds no table; and the paths of [pathlib] on absolute and relative
    names without [~]. *)
Definition strict_urljoin (base href : str) : exc str :=
  if String.eqb href "http://[" then Raise ValueError else Ok (base +:+ href).

Definition broken_link_page : Node :=
  document [Tag "table" [] [row [td []; td [link "http://[" "broken"]]]].

Definition empty_fallback_page : Node :=
  document [Tag "div" [("id", "fallback")] []; Tag "table" [] [dir_row; file_row]].

Definition more_BeautifulSoup (html : str) : Node :=
  if String.eqb html "<broken>" then broken_link_page
  else if String.eqb html "<empty fallback>" then empty_fallback_page
  else demo_BeautifulSoup html.

Definition broken_fetch_page (w : unit) (url : str) : unit * option str :=
  (w, Some "<broken>").

Definition demo_expanduser (p : str) : str := p.
Definition demo_is_absolute (p : str) : bool := str_startswith p "/".
Definition demo_path_join (a b : str) : str := a +:+ "/" +:+ b.
(** ** Strings *)

Lemma app_String a s t : String a s +:+ t = String a (s +:+ t).
Proof. reflexivity. Qed.

Lemma str_startswith_app s p :
  str_startswith s p = true <-> exists rest, s = p +:+ rest.
Proof.
  revert s. induction p as [|a p IH]; intros s; simpl.
  - split; [intros _; exists s; reflexivity | done].
  - destruct s as [|b s].
    + split; [done | intros [rest H]; discriminate H].
    + rewrite andb_true_iff, IH, Ascii.eqb_eq. split.
      * intros [-> [rest ->]]. by exists rest.
      * intros [rest H]. rewrite app_String in H. injection H as -> ->. eauto.
Qed.

Lemma str_drop_app p rest : str_drop (String.length p) (p +:+ rest) = rest.
Proof. induction p as [|a p IH]; simpl; [by destruct rest | exact IH]. Qed.

Lemma str_contains_char c s :
  str_contains (String c "") s =
  match s with
  | EmptyString => false
  | String a s' => Ascii.eqb c a || str_contains (String c "") s'
  end.
Proof. destruct s as [|a s]; simpl; [done | by rewrite andb_true_r]. Qed.

Lemma str_rfind_ge c s : -1 <= str_rfind c s.
Proof.
  induction s as [|a s IH]; simpl; [lia|].
  destruct (0 <=? str_rfind c s) eqn:E; [lia|]. destruct (Ascii.eqb a c); lia.
Qed.

Lemma str_rfind_none c s :
  str_rfind c s = -1 <-> str_contains (String c "") s = false.
Proof.
  induction s as [|a s IH]; [done|].
  rewrite str_contains_char. simpl.
  pose proof (str_rfind_ge c s).
  rewrite orb_false_iff, <- IH, (Ascii.eqb_sym c a).
  destruct (0 <=? str_rfind c s) eqn:E.
  - apply Z.leb_le in E. split; [lia | intros [_ ?]; lia].
  - apply Z.leb_gt in E. destruct (Ascii.eqb a c); split; try done; try lia.
Qed.

Lemma str_rfind_app c pre ext :
  str_contains (String c "") ext = false ->
  str_rfind c (pre +:+ String c ext) = Z.of_nat (String.length pre).
Proof.
  intros Hext. induction pre as [|a pre IH].
  - apply str_rfind_none in Hext. change ("" +:+ String c ext) with (String c ext).
    simpl. rewrite Hext. simpl. by rewrite Ascii.eqb_refl.
  - rewrite app_String. simpl str_rfind. rewrite IH.
    destruct (0 <=? Z.of_nat (String.length pre)) eqn:E; [simpl; lia|].
    apply Z.leb_gt in E. lia.
Qed.

Lemma str_drop_suffix c pre ext :
  str_drop (S (String.length pre)) (pre +:+ String c ext) = ext.
Proof. induction pre as [|a pre IH]; simpl; [by destruct ext | exact IH]. Qed.

Lemma str_rfind_split c s :
  str_rfind c s <> -1 ->
  exists pre ext, s = pre +:+ String c ext /\ str_contains (String c "") ext = false.
Proof.
  induction s as [|a s IH]; [done|]. simpl.
  destruct (0 <=? str_rfind c s) eqn:E.
  - intros _. destruct IH as (pre & ext & -> & Hext).
    { apply Z.leb_le in E. lia. }
    by exists (String a pre), ext.
  - destruct (Ascii.eqb a c) eqn:Ea; [|done]. intros _.
    apply Ascii.eqb_eq in Ea as ->. exists "", s. split; [done|].
    apply str_rfind_none. pose proof (str_rfind_ge c s). apply Z.leb_gt in E. lia.
Qed.

Lemma char_lower_dot a : Ascii.eqb "." (char_lower a) = Ascii.eqb "." a.
Proof. by destruct a as [[] [] [] [] [] [] [] []]. Qed.

Lemma str_lower_dot s :
  str_contains "." (str_lower s) = str_contains "." s.
Proof.
  induction s as [|a s IH]; [done|].
  change (str_lower (String a s)) with (String (char_lower a) (str_lower s)).
  rewrite (str_contains_char "." (String a s)).
  rewrite (str_contains_char "." (String (char_lower a) (str_lower s))).
  by rewrite IH, char_lower_dot.
Qed.

Lemma should_keep_file_iff filename cfg :
  _should_keep_file filename cfg = true <->
  video_exts cfg = [] \/
  exists stem ext,
    str_lower filename = stem +:+ "." +:+ ext
    /\ str_contains "." ext = false
    /\ ext ∈ video_exts cfg.
Proof.
  unfold _should_keep_file. destruct (video_exts cfg) as [|e0 exts] eqn:Hexts.
  { split; [by left | done]. }
  destruct (str_rfind "." (str_lower filename) =? -1) eqn:E.
  - apply Z.eqb_eq in E. split; [done|]. intros [? | (stem & ext & Hs & Hext & _)]; [done|].
    rewrite Hs in E. change ("." +:+ ext) with (String "." ext) in E.
    rewrite str_rfind_app in E by done. lia.
  - apply Z.eqb_neq in E. destruct (str_rfind_split _ _ E) as (pre & ext & Hs & Hext).
    rewrite Hs, str_rfind_app by done.
    replace (Z.to_nat (Z.of_nat (String.length pre) + 1)) with (S (String.length pre)) by lia.
    rewrite str_drop_suffix, bool_decide_eq_true. split.
    + intros Hin. right. by exists pre, ext.
    + intros [? | (stem & ext' & Hs' & Hext' & Hin)]; [done|].
      change ("." +:+ ext') with (String "." ext') in Hs'.
      assert (ext = ext') as ->; [|done].
      rewrite <- (str_drop_suffix "." pre ext), Hs'.
      assert (String.length pre = String.length stem) as ->.
      { apply Nat2Z.inj. rewrite <- (str_rfind_app "." pre ext), Hs' by done.
        by apply str_rfind_app. }
      apply str_drop_suffix.
Qed.

(** *** The order of strings and [max] *)






(** ** Row loops *)

Lemma append_time_acc times m : append_time times m = times ++ append_time [] m.
Proof. destruct m as [[|c m]|]; simpl; by rewrite ?app_nil_r. Qed.

Lemma merge_no_rows_r st : merge st no_rows = st.
Proof. destruct st. unfold merge. simpl. by rewrite !app_nil_r. Qed.

Lemma merge_no_rows_l st : merge no_rows st = st.
Proof. by destruct st. Qed.

Lemma merge_assoc a b c : merge (merge a b) c = merge a (merge b c).
Proof. unfold merge. simpl. by rewrite !app_assoc. Qed.

Lemma exc_bind_Ok {A B} (f : A -> exc B) a : (Ok a ≫= f) = f a.
Proof. reflexivity. Qed.

Lemma exc_bind_Raise {A B} (f : A -> exc B) e : (Raise e ≫= f) = Raise e.
Proof. reflexivity. Qed.

Lemma exc_bind_inv {A B} (f : A -> exc B) m b :
  (m ≫= f) = Ok b -> exists a, m = Ok a /\ f a = Ok b.
Proof. destruct m as [a|e]; [eauto | done]. Qed.

(** Splits on what the head of a [match] of the goal evaluates to. *)
Ltac split_match :=
  match goal with
  | |- context [match ?x with _ => _ end] => destruct x eqn:?
  end.

Ltac unfold_exc := unfold mbind, exc_bind, mret, exc_ret in *.

Ltac row_acc :=
  unfold_exc; repeat (simpl; split_match); simpl;
  rewrite ?merge_no_rows_r; try done;
  unfold merge; simpl; rewrite ?app_nil_r;
  match goal with
  | |- context [append_time (l_times ?st) ?m] =>
      by rewrite (append_time_acc (l_times st) m)
  end.

(** Closes a goal in which a cell the code has checked for is missing. *)
Ltac index_contra :=
  match goal with
  | H : ?l !! ?i = None, L : (length ?l <? ?n)%nat = false |- _ =>
      apply lookup_ge_None in H; apply Nat.ltb_ge in L; lia
  | H : ?l !! ?i = None, L : (?n <=? length ?l)%nat = true |- _ =>
      apply lookup_ge_None in H; apply Nat.leb_le in L; lia
  | H : ?l !! ?i = Some _, L : (?n <=? length ?l)%nat = false |- _ =>
      apply lookup_lt_Some in H; apply Nat.leb_gt in L; lia
  | H : ?l !! ?i = Some _, L : (length ?l <? ?n)%nat = true |- _ =>
      apply lookup_lt_Some in H; apply Nat.ltb_lt in L; lia
  end.

Ltac step_match :=
  match goal with
  | H : context [match ?x with _ => _ end] |- _ => destruct x eqn:?
  | |- context [match ?x with _ => _ end] => destruct x eqn:?
  end.

(** Follows a row through the body of its loop, one test at a time. *)
Ltac row_inv :=
  unfold py_index, row_href, row_label, row_alt, cell_text in *;
  unfold mbind, option_bind, exc_bind, mret, exc_ret in *;
  repeat (cbv beta iota zeta in *; simplify_eq;
          first [discriminate | index_contra | step_match]);
  cbv beta iota zeta in *; simplify_eq.

Ltac row_entry :=
  right; eexists _, _, _; split_and!; try done;
  try match goal with
      | H : ?c = _ |- _ = (if ?c then _ else _) => by rewrite H
      end;
  repeat match goal with
         | H : _ || _ = false |- _ => apply orb_false_iff in H as [? ?]
         | H : bool_decide _ = false |- _ => apply bool_decide_eq_false in H
         | H : String.eqb _ _ = false |- _ => apply String.eqb_neq in H
         end;
  try done; set_solver.

Section RowBodies.
Variable urljoin : str -> str -> exc str.
Variable urlparse : str -> exc ParseResult.
Variable urlunparse : ParseResult -> str.
Variable unquote : str -> str.

Abbreviation generic_row' := (generic_row urljoin urlparse urlunparse unquote).
Abbreviation h5ai_row' := (h5ai_row urljoin urlparse urlunparse unquote).
Abbreviation datatable_row' := (datatable_row urljoin urlparse urlunparse unquote).
Abbreviation _normalize_url' := (_normalize_url urljoin urlparse urlunparse).

Lemma generic_row_acc base tr st :
  generic_row' base tr st = (d ← generic_row' base tr no_rows; mret (merge st d)).
Proof. unfold generic_row, _normalize_url. row_acc. Qed.

Lemma h5ai_row_acc base tr st :
  h5ai_row' base tr st = (d ← h5ai_row' base tr no_rows; mret (merge st d)).
Proof. unfold h5ai_row, _normalize_url. row_acc. Qed.

Lemma datatable_row_acc base tr st :
  datatable_row' base tr st = (d ← datatable_row' base tr no_rows; mret (merge st d)).
Proof. unfold datatable_row, _normalize_url. row_acc. Qed.

(** What a row of each loop adds: nothing, or one entry made of its href,
    its label and its cells. *)
Lemma generic_row_inv base tr d :
  generic_row' base tr no_rows = Ok d ->
  d = no_rows \/
  exists href label url,
    row_href tr = Some href /\ row_label tr = Some label
    /\ _normalize_url' base href = Ok url
    /\ str_startswith (str_upper (row_alt tr)) "[PARENTDIR]" = false
    /\ href <> "../" /\ href <> ".."
    /\ d = if str_endswith href "/"
              || str_contains "[DIR]" (str_upper (row_alt tr))
              || str_contains "folder" (str_lower (row_alt tr))
           then mkRowLists
                  [mkParsedDirEntry (_decode_name unquote label) url (cell_text tr 2)] []
                  (append_time [] (cell_text tr 2))
           else mkRowLists []
                  [mkParsedFileEntry (_decode_name unquote label) url
                     (cell_text tr 2) (cell_text tr 3)]
                  (append_time [] (cell_text tr 2)).
Proof.
  unfold generic_row. intros H. row_inv.
  all: try (by left).
  all: row_entry.
Qed.

Lemma h5ai_row_inv base tr d :
  h5ai_row' base tr no_rows = Ok d ->
  d = no_rows \/
  exists href label url,
    row_href tr = Some href /\ row_label tr = Some label
    /\ _normalize_url' base href = Ok url
    /\ href <> ".."
    /\ str_contains "Parent Directory" label = false
    /\ d = if str_endswith href "/" || str_contains "folder" (str_lower (row_alt tr))
           then mkRowLists
                  [mkParsedDirEntry (_decode_name unquote label) url (cell_text tr 2)] []
                  (append_time [] (cell_text tr 2))
           else mkRowLists []
                  [mkParsedFileEntry (_decode_name unquote label) url
                     (cell_text tr 2) (cell_text tr 3)]
                  (append_time [] (cell_text tr 2)).
Proof.
  unfold h5ai_row. intros H. row_inv.
  all: try (by left).
  all: row_entry.
Qed.

Lemma datatable_row_inv base tr d :
  datatable_row' base tr no_rows = Ok d ->
  d = no_rows \/
  exists href label url,
    row_href tr = Some href /\ row_label tr = Some label
    /\ _normalize_url' base href = Ok url
    /\ href <> ".." /\ href <> "../"
    /\ str_contains "Parent Directory" label = false
    /\ d = if str_endswith href "/"
              && match cell_text tr 3 with None => true | Some s => String.eqb s "" end
           then mkRowLists
                  [mkParsedDirEntry (_decode_name unquote label) url (cell_text tr 4)] []
                  (append_time [] (cell_text tr 4))
           else mkRowLists []
                  [mkParsedFileEntry (_decode_name unquote label) url
                     (cell_text tr 4) (cell_text tr 3)]
                  (append_time [] (cell_text tr 4)).
Proof.
  unfold datatable_row. intros H. row_inv.
  all: try (by left).
  all: row_entry.
Qed.

End RowBodies.

Section Loop.
Variable body : Node -> RowLists -> exc RowLists.

Lemma for_each_app l1 l2 st :
  for_each body (l1 ++ l2) st = (s ← for_each body l1 st; for_each body l2 s).
Proof.
  revert st. induction l1 as [|tr l1 IH]; intros st; simpl; [done|].
  destruct (body tr st); [apply IH | done].
Qed.

Lemma for_each_skip l1 tr l2 st :
  (forall s, body tr s = Ok s) ->
  for_each body (l1 ++ tr :: l2) st = for_each body (l1 ++ l2) st.
Proof.
  intros Hskip. rewrite !for_each_app.
  destruct (for_each body l1 st) as [s|e]; simpl; [|done].
  unfold_exc. by rewrite Hskip.
Qed.

Hypothesis body_acc :
  forall tr st, body tr st = (d ← body tr no_rows; mret (merge st d)).

Lemma for_each_acc rows st :
  for_each body rows st = (d ← for_each body rows no_rows; mret (merge st d)).
Proof.
  revert st. induction rows as [|tr rows IH]; intros st; simpl.
  - unfold_exc. by rewrite merge_no_rows_r.
  - rewrite body_acc. destruct (body tr no_rows) as [d|e]; unfold_exc; [|done].
    rewrite (IH (merge st d)), (IH d). unfold_exc.
    destruct (for_each body rows no_rows); [|done]. by rewrite merge_assoc.
Qed.

Lemma for_each_split l1 tr l2 st :
  for_each body (l1 ++ tr :: l2) no_rows = Ok st ->
  exists p1 d p2,
    for_each body l1 no_rows = Ok p1 /\ body tr no_rows = Ok d
    /\ for_each body l2 no_rows = Ok p2 /\ st = merge p1 (merge d p2).
Proof.
  rewrite for_each_app. intros (p1 & Hp1 & H)%exc_bind_inv.
  simpl in H. rewrite body_acc in H.
  destruct (body tr no_rows) as [d|e]; [|done]. unfold_exc.
  rewrite for_each_acc in H. unfold_exc.
  destruct (for_each body l2 no_rows) as [p2|e]; [|done].
  injection H as <-. exists p1, d, p2. by rewrite merge_assoc.
Qed.

(** A property of the lists that holds of what each row adds, and of the
    lists of two runs put together, holds of what the loop returns. *)
Lemma for_each_invariant (P : RowLists -> Prop) rows st :
  P no_rows ->
  (forall a b, P a -> P b -> P (merge a b)) ->
  (forall tr d, body tr no_rows = Ok d -> P d) ->
  for_each body rows no_rows = Ok st -> P st.
Proof.
  intros H0 Hm Hrow. revert st. induction rows as [|tr rows IH]; intros st; simpl.
  - by intros [= <-].
  - destruct (body tr no_rows) as [d|e] eqn:Hd; [|done].
    rewrite for_each_acc. unfold_exc.
    destruct (for_each body rows no_rows) as [p|e]; [|done].
    intros [= <-]. eauto.
Qed.

End Loop.

(** ** What the rows of a page become *)

Section Rows.
Variable urljoin : str -> str -> exc str.
Variable urlparse : str -> exc ParseResult.
Variable urlunparse : ParseResult -> str.
Variable unquote : str -> str.

Abbreviation generic_row' := (generic_row urljoin urlparse urlunparse unquote).
Abbreviation h5ai_row' := (h5ai_row urljoin urlparse urlunparse unquote).
Abbreviation datatable_row' := (datatable_row urljoin urlparse urlunparse unquote).
Abbreviation _normalize_url' := (_normalize_url urljoin urlparse urlunparse).
Abbreviation _parse_generic_table' :=
  (_parse_generic_table urljoin urlparse urlunparse unquote).
Abbreviation _parse_h5ai_fallback' :=
  (_parse_h5ai_fallback urljoin urlparse urlunparse unquote).
Abbreviation _parse_discovery_datatable' :=
  (_parse_discovery_datatable urljoin urlparse urlunparse unquote).

Lemma accepted_not_skipped body tr d :
  accepted body tr -> body tr no_rows = Ok d -> d <> no_rows.
Proof.
  intros (sd & fs & [ts Hts] & Hne) Hd ->. rewrite Hts in Hd.
  injection Hd as -> -> _. by destruct Hne.
Qed.

Lemma in_subdirs_only_intro body before tr after st :
  (forall tr st, body tr st = (d ← body tr no_rows; mret (merge st d))) ->
  for_each body (before ++ tr :: after) no_rows = Ok st ->
  (forall d, body tr no_rows = Ok d -> exists e ts, d = mkRowLists [e] [] ts) ->
  in_subdirs_only body before tr after (page_of st).
Proof.
  intros Hacc Hst Hdir.
  destruct (for_each_split body Hacc _ _ _ _ Hst) as (p1 & d & p2 & H1 & Hd & H2 & ->).
  destruct (Hdir d Hd) as (e & ts & ->).
  exists e, p1, p2. split_and!; try done. by exists ts.
Qed.

Lemma generic_slash_row base tr href d :
  row_href tr = Some href -> str_endswith href "/" = true ->
  accepted (generic_row' base) tr ->
  generic_row' base tr no_rows = Ok d -> exists e ts, d = mkRowLists [e] [] ts.
Proof.
  intros Hhref Hslash Hacc Hd.
  pose proof (accepted_not_skipped _ _ _ Hacc Hd) as Hne.
  apply generic_row_inv in Hd as [-> | (h & l & u & Hh & _ & _ & _ & _ & _ & ->)]; [done|].
  rewrite Hhref in Hh. injection Hh as <-. rewrite Hslash. simpl. eauto.
Qed.

Lemma h5ai_slash_row base tr href d :
  row_href tr = Some href -> str_endswith href "/" = true ->
  accepted (h5ai_row' base) tr ->
  h5ai_row' base tr no_rows = Ok d -> exists e ts, d = mkRowLists [e] [] ts.
Proof.
  intros Hhref Hslash Hacc Hd.
  pose proof (accepted_not_skipped _ _ _ Hacc Hd) as Hne.
  apply h5ai_row_inv in Hd as [-> | (h & l & u & Hh & _ & _ & _ & _ & ->)]; [done|].
  rewrite Hhref in Hh. injection Hh as <-. rewrite Hslash. simpl. eauto.
Qed.

Lemma datatable_slash_row base tr href d :
  row_href tr = Some href -> str_endswith href "/" = true ->
  cell_text tr 3 = None ->
  accepted (datatable_row' base) tr ->
  datatable_row' base tr no_rows = Ok d -> exists e ts, d = mkRowLists [e] [] ts.
Proof.
  intros Hhref Hslash Hsize Hacc Hd.
  pose proof (accepted_not_skipped _ _ _ Hacc Hd) as Hne.
  apply datatable_row_inv in Hd as [-> | (h & l & u & Hh & _ & _ & _ & _ & _ & ->)]; [done|].
  rewrite Hhref in Hh. injection Hh as <-. rewrite Hslash, Hsize. simpl. eauto.
Qed.

(** C1 (as amended): a row that is accepted as an entry and whose href ends
    with [/] lands in the subdirs of the page and adds nothing to its files,
    in the generic and the h5ai loops always, and in the DataTables loop when
    its size cell is empty or missing. *)
Theorem slash_rows_are_subdirs (soup : Node) (base : str) :
  (forall table before tr after href page,
     find "table" soup = Some table ->
     find_all "tr" table = before ++ tr :: after ->
     row_href tr = Some href -> str_endswith href "/" = true ->
     accepted (generic_row' base) tr ->
     _parse_generic_table' soup base = Ok page ->
     in_subdirs_only (generic_row' base) before tr after page)
  /\ (forall fb table before tr after href page,
     find_id "div" "fallback" soup = Some fb -> find "table" fb = Some table ->
     find_all "tr" table = before ++ tr :: after ->
     row_href tr = Some href -> str_endswith href "/" = true ->
     accepted (h5ai_row' base) tr ->
     _parse_h5ai_fallback' soup base = Ok page ->
     in_subdirs_only (h5ai_row' base) before tr after page)
  /\ (forall table before tr after href page,
     find_id "table" "example" soup = Some table ->
     find_all "tr" (tbody_or_table table) = before ++ tr :: after ->
     row_href tr = Some href -> str_endswith href "/" = true ->
     cell_text tr 3 = None ->
     accepted (datatable_row' base) tr ->
     _parse_discovery_datatable' soup base = Ok page ->
     in_subdirs_only (datatable_row' base) before tr after page).
Proof.
  split_and!.
  - intros table before tr after href page Ht Hrows Hhref Hslash Hacc.
    unfold _parse_generic_table. rewrite Ht, Hrows.
    intros (st & Hst & [= <-])%exc_bind_inv.
    eapply in_subdirs_only_intro; [apply generic_row_acc | done |].
    intros d. by eapply generic_slash_row.
  - intros fb table before tr after href page Hfb Ht Hrows Hhref Hslash Hacc.
    unfold _parse_h5ai_fallback. rewrite Hfb, Ht, Hrows.
    intros (st & Hst & [= <-])%exc_bind_inv.
    eapply in_subdirs_only_intro; [apply h5ai_row_acc | done |].
    intros d. by eapply h5ai_slash_row.
  - intros table before tr after href page Ht Hrows Hhref Hslash Hsize Hacc.
    unfold _parse_discovery_datatable. rewrite Ht. cbv zeta. rewrite Hrows.
    intros (st & Hst & [= <-])%exc_bind_inv.
    eapply in_subdirs_only_intro; [apply datatable_row_acc | done |].
    intros d. by eapply datatable_slash_row.
Qed.

(** A row loop raises only what [_normalize_url] raises on the href of a
    row it has not skipped. *)
Lemma generic_row_raise base tr st e :
  generic_row' base tr st = Raise e ->
  exists href, row_href tr = Some href
    /\ str_startswith (str_upper (row_alt tr)) "[PARENTDIR]" = false
    /\ href <> "../" /\ href <> ".."
    /\ _normalize_url' base href = Raise e.
Proof.
  unfold generic_row. intros H. row_inv.
  all: eexists; split_and!; try done.
  all: repeat match goal with
         | H : _ || _ = false |- _ => apply orb_false_iff in H as [? ?]
         | H : bool_decide _ = false |- _ => apply bool_decide_eq_false in H
         end; try done; set_solver.
Qed.

Lemma h5ai_row_raise base tr st e :
  h5ai_row' base tr st = Raise e ->
  exists href label, row_href tr = Some href /\ row_label tr = Some label
    /\ href <> ".." /\ str_contains "Parent Directory" label = false
    /\ _normalize_url' base href = Raise e.
Proof.
  unfold h5ai_row. intros H. row_inv.
  all: eexists _, _; split_and!; try done.
  all: repeat match goal with
         | H : _ || _ = false |- _ => apply orb_false_iff in H as [? ?]
         | H : String.eqb _ _ = false |- _ => apply String.eqb_neq in H
         end; done.
Qed.

Lemma datatable_row_raise base tr st e :
  datatable_row' base tr st = Raise e ->
  exists href label, row_href tr = Some href /\ row_label tr = Some label
    /\ href <> ".." /\ href <> "../"
    /\ str_contains "Parent Directory" label = false
    /\ _normalize_url' base href = Raise e.
Proof.
  unfold datatable_row. intros H. row_inv.
  all: eexists _, _; split_and!; try done.
  all: repeat match goal with
         | H : _ || _ = false |- _ => apply orb_false_iff in H as [? ?]
         | H : bool_decide _ = false |- _ => apply bool_decide_eq_false in H
         end; try done; set_solver.
Qed.

(** The rows each loop takes for the parent directory add nothing. *)
Lemma generic_row_parent base tr st :
  generic_parent_marker tr -> generic_row' base tr st = Ok st.
Proof.
  intros Hm. rewrite generic_row_acc.
  destruct (generic_row' base tr no_rows) as [d|e] eqn:Hd.
  - apply generic_row_inv in Hd as [-> | (h & l & u & Hh & _ & _ & Halt & H1 & H2 & _)].
    + unfold_exc. by rewrite merge_no_rows_r.
    + destruct Hm as [Hm | [Hm | Hm]]; congruence.
  - apply generic_row_raise in Hd as (h & Hh & Halt & H1 & H2 & _).
    destruct Hm as [Hm | [Hm | Hm]]; congruence.
Qed.

Lemma h5ai_row_parent base tr st :
  h5ai_parent_marker tr -> h5ai_row' base tr st = Ok st.
Proof.
  intros Hm. rewrite h5ai_row_acc.
  destruct (h5ai_row' base tr no_rows) as [d|e] eqn:Hd.
  - apply h5ai_row_inv in Hd as [-> | (h & l & u & Hh & Hl & _ & H1 & H2 & _)].
    + unfold_exc. by rewrite merge_no_rows_r.
    + destruct Hm as [Hm | (l' & Hl' & Hm)]; congruence.
  - apply h5ai_row_raise in Hd as (h & l & Hh & Hl & H1 & H2 & _).
    destruct Hm as [Hm | (l' & Hl' & Hm)]; congruence.
Qed.

Lemma datatable_row_parent base tr st :
  datatable_parent_marker tr -> datatable_row' base tr st = Ok st.
Proof.
  intros Hm. rewrite datatable_row_acc.
  destruct (datatable_row' base tr no_rows) as [d|e] eqn:Hd.
  - apply datatable_row_inv in Hd
      as [-> | (h & l & u & Hh & Hl & _ & H1 & H2 & H3 & _)].
    + unfold_exc. by rewrite merge_no_rows_r.
    + destruct Hm as [Hm | [Hm | (l' & Hl' & Hm)]]; congruence.
  - apply datatable_row_raise in Hd as (h & l & Hh & Hl & H1 & H2 & H3 & _).
    destruct Hm as [Hm | [Hm | (l' & Hl' & Hm)]]; congruence.
Qed.

(** C4 (as amended): in each loop, a row that carries one of the
    parent-directory markers that loop looks for adds nothing to either
    list, and the page is the one of the listing without the row. The generic
    loop looks for an icon text that starts with [PARENTDIR] in any case, or
    the href [..] or [../]; the h5ai loop for the href [..] or a label that
    contains "Parent Directory"; the DataTables loop for the href [..] or
    [../] or such a label. *)
Theorem parent_rows_are_dropped (soup : Node) (base : str) :
  (forall table before tr after,
     find "table" soup = Some table ->
     find_all "tr" table = before ++ tr :: after ->
     generic_parent_marker tr ->
     (forall st, generic_row' base tr st = Ok st)
     /\ _parse_generic_table' soup base
        = page_of_rows (generic_row' base) (before ++ after))
  /\ (forall fb table before tr after,
     find_id "div" "fallback" soup = Some fb -> find "table" fb = Some table ->
     find_all "tr" table = before ++ tr :: after ->
     h5ai_parent_marker tr ->
     (forall st, h5ai_row' base tr st = Ok st)
     /\ _parse_h5ai_fallback' soup base
        = page_of_rows (h5ai_row' base) (before ++ after))
  /\ (forall table before tr after,
     find_id "table" "example" soup = Some table ->
     find_all "tr" (tbody_or_table table) = before ++ tr :: after ->
     datatable_parent_marker tr ->
     (forall st, datatable_row' base tr st = Ok st)
     /\ _parse_discovery_datatable' soup base
        = page_of_rows (datatable_row' base) (before ++ after)).
Proof.
  split_and!.
  - intros table before tr after Ht Hrows Hm.
    split; [intros st; by apply generic_row_parent|].
    unfold _parse_generic_table, page_of_rows. rewrite Ht, Hrows.
    rewrite for_each_skip; [done|]. intros s. by apply generic_row_parent.
  - intros fb table before tr after Hfb Ht Hrows Hm.
    split; [intros st; by apply h5ai_row_parent|].
    unfold _parse_h5ai_fallback, page_of_rows. rewrite Hfb, Ht, Hrows.
    rewrite for_each_skip; [done|]. intros s. by apply h5ai_row_parent.
  - intros table before tr after Ht Hrows Hm.
    split; [intros st; by apply datatable_row_parent|].
    unfold _parse_discovery_datatable, page_of_rows. rewrite Ht. cbv zeta.
    rewrite Hrows.
    rewrite for_each_skip; [done|]. intros s. by apply datatable_row_parent.
Qed.

(** *** The freshness token *)













(** *** Exceptions *)



Variable BeautifulSoup : str -> Node.
Abbreviation parse_directory_page' :=
  (parse_directory_page urljoin urlparse urlunparse unquote BeautifulSoup).




End Rows.

(** ** The parser on the example listings *)

Abbreviation demo_generic_row :=
  (generic_row demo_urljoin demo_urlparse demo_urlunparse demo_unquote).
Abbreviation demo_h5ai_row :=
  (h5ai_row demo_urljoin demo_urlparse demo_urlunparse demo_unquote).
Abbreviation demo_datatable_row :=
  (datatable_row demo_urljoin demo_urlparse demo_urlunparse demo_unquote).
Abbreviation demo_parse_generic :=
  (_parse_generic_table demo_urljoin demo_urlparse demo_urlunparse demo_unquote).
Abbreviation demo_parse_h5ai :=
  (_parse_h5ai_fallback demo_urljoin demo_urlparse demo_urlunparse demo_unquote).
Abbreviation demo_parse_datatable :=
  (_parse_discovery_datatable demo_urljoin demo_urlparse demo_urlunparse demo_unquote).
Abbreviation demo_parse :=
  (parse_directory_page demo_urljoin demo_urlparse demo_urlunparse demo_unquote
     demo_BeautifulSoup).

(** C1, as stated, fails on the DataTables listing: the row of [A/] is
    accepted and its href ends with [/], yet it has a size and is listed as a
    file. *)
Lemma sized_dir_row_is_a_file :
  row_href sized_dir_row = Some "A/"
  /\ str_endswith "A/" "/" = true
  /\ demo_datatable_row "http://x/Movies/" sized_dir_row no_rows
     = Ok (mkRowLists []
             [mkParsedFileEntry "A" "http://x/Movies/A/" (Some "2024-01-01") (Some "4K")]
             ["2024-01-01"])
  /\ demo_parse_datatable datatable_page "http://x/Movies/"
     = Ok (mkParsedPage (Some "2024-01-02")
             [mkParsedDirEntry "C" "http://x/Movies/C/" None]
             [mkParsedFileEntry "A" "http://x/Movies/A/" (Some "2024-01-01") (Some "4K");
              mkParsedFileEntry "b.mkv" "http://x/Movies/b.mkv" (Some "2024-01-02")
                (Some "700M")]).
Proof. by vm_compute. Qed.

Lemma slash_rows_are_subdirs_witness :
  (exists page, demo_parse_generic generic_page "http://x/Movies/" = Ok page
     /\ in_subdirs_only (demo_generic_row "http://x/Movies/")
          [header_row; icon_parent_row] dir_row [file_row; labelled_parent_row] page)
  /\ (exists page, demo_parse_h5ai h5ai_page "http://x/Movies/" = Ok page
     /\ in_subdirs_only (demo_h5ai_row "http://x/Movies/")
          [h5ai_parent_row] h5ai_dir_row [h5ai_file_row] page)
  /\ (exists page, demo_parse_datatable datatable_page "http://x/Movies/" = Ok page
     /\ in_subdirs_only (demo_datatable_row "http://x/Movies/")
          [datatable_parent_row; sized_dir_row; datatable_file_row] unsized_dir_row [] page).
Proof.
  pose proof (slash_rows_are_subdirs demo_urljoin demo_urlparse demo_urlunparse
                demo_unquote) as H.
  split_and!.
  - eexists. split; [by vm_compute|].
    eapply (proj1 (H generic_page "http://x/Movies/")); try by vm_compute.
    eexists _, _. split; [eexists; by vm_compute | by left].
  - eexists. split; [by vm_compute|].
    eapply (proj1 (proj2 (H h5ai_page "http://x/Movies/"))); try by vm_compute.
    eexists _, _. split; [eexists; by vm_compute | by left].
  - eexists. split; [by vm_compute|].
    eapply (proj2 (proj2 (H datatable_page "http://x/Movies/"))); try by vm_compute.
    eexists _, _. split; [eexists; by vm_compute | by left].
Defined.


(** C4, as stated, fails on the autoindex listing: the label of the last row
    contains "Parent Directory", and the row is listed among the subdirs. *)
Lemma labelled_parent_row_is_listed :
  row_label labelled_parent_row = Some "Parent Directory"
  /\ str_contains "Parent Directory" "Parent Directory" = true
  /\ demo_generic_row "http://x/Movies/" labelled_parent_row no_rows
     = Ok (mkRowLists
             [mkParsedDirEntry "Parent Directory" "http://x/Movies/up/" None] [] [])
  /\ demo_parse_generic generic_page "http://x/Movies/"
     = Ok (mkParsedPage (Some "2024-01-02")
             [mkParsedDirEntry "A" "http://x/Movies/A/" (Some "2024-01-01");
              mkParsedDirEntry "Parent Directory" "http://x/Movies/up/" None]
             [mkParsedFileEntry "b.mkv" "http://x/Movies/b.mkv" (Some "2024-01-02")
                (Some "700M")]).
Proof. by vm_compute. Qed.

Lemma parent_rows_are_dropped_witness :
  demo_parse_generic generic_page "http://x/Movies/"
  = page_of_rows (demo_generic_row "http://x/Movies/")
      ([header_row] ++ [dir_row; file_row; labelled_parent_row])
  /\ demo_parse_h5ai h5ai_page "http://x/Movies/"
     = page_of_rows (demo_h5ai_row "http://x/Movies/") ([] ++ [h5ai_dir_row; h5ai_file_row])
  /\ demo_parse_datatable datatable_page "http://x/Movies/"
     = page_of_rows (demo_datatable_row "http://x/Movies/")
         ([] ++ [sized_dir_row; datatable_file_row; unsized_dir_row]).
Proof.
  pose proof (parent_rows_are_dropped demo_urljoin demo_urlparse demo_urlunparse
                demo_unquote) as H.
  split_and!.
  - eapply (proj1 (H generic_page "http://x/Movies/")); [by vm_compute | by vm_compute |].
    left. by vm_compute.
  - eapply (proj1 (proj2 (H h5ai_page "http://x/Movies/")));
      [by vm_compute | by vm_compute | by vm_compute |].
    left. by vm_compute.
  - eapply (proj2 (proj2 (H datatable_page "http://x/Movies/")));
      [by vm_compute | by vm_compute |].
    right; left. by vm_compute.
Defined.



(** ** The crawl policy *)

Lemma char_lower_idemp a : char_lower (char_lower a) = char_lower a.
Proof. by destruct a as [[] [] [] [] [] [] [] []]. Qed.

Lemma str_lower_idemp s : str_lower (str_lower s) = str_lower s.
Proof.
  induction s as [|a s IH]; [done|]. unfold str_lower in *. simpl.
  by rewrite char_lower_idemp, IH.
Qed.

Lemma load_crawl_config_blocked_lower raw :
  Forall (fun b => str_lower b = b) (blocked_dirs (load_crawl_config raw)).
Proof.
  unfold load_crawl_config. simpl. apply Forall_forall.
  intros b (b0 & -> & _)%list_elem_of_fmap. apply str_lower_idemp.
Qed.

Lemma is_blocked_dir_match path cfg :
  Forall (fun b => str_lower b = b) (blocked_dirs cfg) ->
  (exists b, b ∈ blocked_dirs cfg /\ str_lower b = str_lower (final_segment path)) ->
  _is_blocked_dir path cfg = true.
Proof.
  intros Hlow (b & Hb & Heq). unfold _is_blocked_dir.
  destruct (blocked_dirs cfg) as [|b0 bs] eqn:E; [by apply elem_of_nil in Hb|].
  apply bool_decide_eq_true. fold (final_segment path). rewrite <- Heq.
  rewrite Forall_forall in Hlow. by rewrite (Hlow b Hb).
Qed.

(** C9: the root-relative path always starts with [/]; it is [/] when the
    directory URL does not start with the normalised root URL, and otherwise
    it is what follows that prefix, without its trailing slashes, behind a
    [/]. *)
Theorem path_from_root_spec (root_url dir_url : str) :
  str_startswith (_path_from_root root_url dir_url) "/" = true
  /\ (str_startswith dir_url (normalize_root_url root_url) = false ->
      _path_from_root root_url dir_url = "/")
  /\ (forall rest, dir_url = normalize_root_url root_url +:+ rest ->
      _path_from_root root_url dir_url = "/" +:+ str_rstrip_chars "/" rest).
Proof.
  unfold _path_from_root. split_and!.
  - destruct (str_startswith dir_url _); simpl; [|done].
    by destruct (str_rstrip_chars _ _).
  - by intros ->.
  - intros rest ->.
    assert (H : str_startswith (normalize_root_url root_url +:+ rest)
                  (normalize_root_url root_url) = true)
      by (apply str_startswith_app; eauto).
    rewrite H, str_drop_app. simpl. by destruct (str_rstrip_chars _ _).
Qed.

Lemma path_from_root_spec_witness :
  _path_from_root "http://x/Movies" "http://x/Movies/A/B//" = "/A/B"
  /\ _path_from_root "http://x/Movies/" "http://y/Other/" = "/".
Proof.
  split.
  - apply (proj2 (proj2 (path_from_root_spec "http://x/Movies" "http://x/Movies/A/B//"))
             "A/B//").
    by vm_compute.
  - apply (proj1 (proj2 (path_from_root_spec "http://x/Movies/" "http://y/Other/"))).
    by vm_compute.
Defined.

(** C5: a file is kept exactly when there are no video extensions, or when
    what follows the last [.] of its lower-cased name is one of them; a name
    without a [.] is dropped as soon as there is an extension; and the
    examples of the extension filter come out as stated. *)
Theorem should_keep_file_spec (filename : str) (cfg : CrawlConfig) :
  (_should_keep_file filename cfg = true <->
   video_exts cfg = [] \/
   exists stem ext,
     str_lower filename = stem +:+ "." +:+ ext
     /\ str_contains "." ext = false
     /\ ext ∈ video_exts cfg)
  /\ (str_contains "." filename = false -> video_exts cfg <> [] ->
      _should_keep_file filename cfg = false)
  /\ (let two := mkCrawlConfig ["mp4"; "mkv"] (blocked_dirs cfg) in
      let none := mkCrawlConfig [] (blocked_dirs cfg) in
      _should_keep_file "x.MKV" two = true
      /\ _should_keep_file "x.srt" two = false
      /\ _should_keep_file "noext" two = false
      /\ _should_keep_file "x.MKV" none = true
      /\ _should_keep_file "x.srt" none = true
      /\ _should_keep_file "noext" none = true).
Proof.
  split_and!; try done.
  - apply should_keep_file_iff.
  - intros Hdot Hne. apply not_true_is_false.
    intros [? | (stem & ext & Hs & _ & _)]%should_keep_file_iff; [done|].
    rewrite <- str_lower_dot, Hs in Hdot.
    clear -Hdot. induction stem as [|a stem IH].
    + change ("" +:+ "." +:+ ext) with (String "." ext) in Hdot.
      by rewrite str_contains_char in Hdot.
    + rewrite app_String, str_contains_char in Hdot.
      apply orb_false_iff in Hdot as [_ Hdot]. by apply IH.
Qed.

Lemma should_keep_file_spec_witness :
  _should_keep_file "Film.Part.1.Mp4" (mkCrawlConfig ["mp4"; "mkv"] []) = true
  /\ _should_keep_file "README" (mkCrawlConfig ["mp4"; "mkv"] []) = false.
Proof.
  split.
  - apply (proj1 (should_keep_file_spec "Film.Part.1.Mp4" (mkCrawlConfig ["mp4"; "mkv"] []))).
    right. exists "film.part.1", "mp4". split_and!; [by vm_compute | by vm_compute |].
    apply elem_of_cons. by left.
  - apply (proj1 (proj2 (should_keep_file_spec "README" (mkCrawlConfig ["mp4"; "mkv"] []))));
      [by vm_compute | done].
Defined.

(** ** The crawl *)

Lemma only_adds_refl {World} kind (st : Crawl World) : only_adds kind st st.
Proof. exists []. by rewrite app_nil_r. Qed.

Lemma only_adds_trans {World} kind (a b c : Crawl World) :
  only_adds kind a b -> only_adds kind b c -> only_adds kind a c.
Proof.
  intros (e1 & H1 & F1) (e2 & H2 & F2). exists (e1 ++ e2).
  split; [by rewrite H2, H1, app_assoc | by apply Forall_app].
Qed.

Lemma only_adds_execute {World} kind e f (st : Crawl World) :
  kind e = false -> only_adds kind st (execute e f st).
Proof. intros He. exists [e]. split; [done | by constructor]. Qed.

Lemma only_adds_same_events {World} kind (st st' : Crawl World) :
  events st' = events st -> only_adds kind st st'.
Proof. intros H. exists []. by rewrite app_nil_r. Qed.

Section Crawl.
Variable urljoin : str -> str -> exc str.
Variable urlparse : str -> exc ParseResult.
Variable urlunparse : ParseResult -> str.
Variable unquote : str -> str.
Variable BeautifulSoup : str -> Node.
Variable World : Type.
Variable _fetch_page : World -> str -> World * option str.
Variable root_cfg : RootConfig.
Variable cfg : CrawlConfig.

Abbreviation parse_directory_page' :=
  (parse_directory_page urljoin urlparse urlunparse unquote BeautifulSoup).
Abbreviation crawl_pass' :=
  (crawl_pass urljoin urlparse urlunparse unquote BeautifulSoup World _fetch_page
     root_cfg cfg).
Abbreviation crawl_loop' :=
  (crawl_loop urljoin urlparse urlunparse unquote BeautifulSoup World _fetch_page
     root_cfg cfg).
Abbreviation crawl_start' := (crawl_start World root_cfg).
Abbreviation crawl_root' :=
  (crawl_root urljoin urlparse urlunparse unquote BeautifulSoup World _fetch_page
     root_cfg cfg).
Abbreviation reindex' := (reindex World root_cfg cfg).
Abbreviation insert_file' := (insert_file World root_cfg cfg).

(** C6: a dequeued item whose root-relative path ends in a segment that is,
    up to case, one of the blocked directories (which are lower-case) is
    dropped before anything else happens: the run goes on from the state in
    which only the item has left the queue, so the page was not fetched, the
    store was not written and nothing was enqueued. *)
Theorem blocked_dir_is_discarded (incremental : bool) (fuel : nat)
    (st : Crawl World) (dir_url : str) (parent_url : option str)
    (rest : list (str * option str)) :
  queue st = (dir_url, parent_url) :: rest ->
  Forall (fun b => str_lower b = b) (blocked_dirs cfg) ->
  (exists b, b ∈ blocked_dirs cfg
     /\ str_lower b
        = str_lower (final_segment (_path_from_root (root_url root_cfg) dir_url))) ->
  crawl_pass' incremental (dir_url, parent_url) (with_queue rest st)
    = Continue (with_queue rest st)
  /\ crawl_loop' incremental (S fuel) st = crawl_loop' incremental fuel (with_queue rest st)
  /\ db (with_queue rest st) = db st
  /\ events (with_queue rest st) = events st
  /\ world (with_queue rest st) = world st
  /\ queue (with_queue rest st) = rest.
Proof.
  intros Hq Hlow Hmatch.
  assert (Hpass : crawl_pass' incremental (dir_url, parent_url) (with_queue rest st)
                  = Continue (with_queue rest st)).
  { unfold crawl_pass. by rewrite (is_blocked_dir_match _ _ Hlow Hmatch). }
  split_and!; try done. simpl. by rewrite Hq, Hpass.
Qed.

(** In incremental mode, a directory whose stored row has the modified value
    the page has just been parsed to is left as it is. *)
Lemma unchanged_dir_is_skipped (fuel : nat) (st : Crawl World) (dir_url : str)
    (parent_url : option str) (rest : list (str * option str))
    (w : World) (html : str) (parsed : ParsedPage) (stored : DirRow) :
  queue st = (dir_url, parent_url) :: rest ->
  _fetch_page (world st) dir_url = (w, Some html) ->
  parse_directory_page' html dir_url = Ok parsed ->
  dirs (db st) !! dir_url = Some stored ->
  d_modified stored = dir_modified parsed ->
  exists st',
    crawl_loop' true (S fuel) st = crawl_loop' true fuel st'
    /\ db st' = db st
    /\ queue st' = rest
    /\ only_adds is_store_write st st'.
Proof.
  intros Hq Hfetch Hparse Hrow Hsame. simpl. rewrite Hq. unfold crawl_pass.
  destruct (_is_blocked_dir _ cfg).
  { exists (with_queue rest st). split_and!; try done. by apply only_adds_same_events. }
  simpl. rewrite Hfetch, Hparse. unfold select_dir_modified. simpl.
  rewrite Hrow. simpl. rewrite bool_decide_eq_true_2 by done.
  eexists. split; [done|]. split_and!; try done.
  exists [EvFetch dir_url; EvSelectDir dir_url]. split.
  - simpl. by rewrite <- app_assoc.
  - by repeat constructor.
Qed.

(** C2: in incremental mode, when the stored freshness token of the dequeued
    directory is present and equal to the token of the page just fetched and
    parsed, the pass writes nothing to the store, so no MediaFile row, and
    enqueues nothing: the run goes on with the rest of the queue. *)
Theorem same_token_is_skipped (fuel : nat) (st : Crawl World) (dir_url : str)
    (parent_url : option str) (rest : list (str * option str))
    (w : World) (html : str) (parsed : ParsedPage) (stored : DirRow) (token : str) :
  queue st = (dir_url, parent_url) :: rest ->
  _fetch_page (world st) dir_url = (w, Some html) ->
  parse_directory_page' html dir_url = Ok parsed ->
  dirs (db st) !! dir_url = Some stored ->
  d_modified stored = Some token ->
  dir_modified parsed = Some token ->
  exists st',
    crawl_loop' true (S fuel) st = crawl_loop' true fuel st'
    /\ db st' = db st
    /\ queue st' = rest
    /\ only_adds is_store_write st st'.
Proof.
  intros Hq Hfetch Hparse Hrow Hstored Htoken.
  eapply unchanged_dir_is_skipped; eauto. congruence.
Qed.

(** C10: the comparison is plain equality, the absent value included: in
    incremental mode, when the dequeued directory has a stored row without a
    token and the page just parsed has none either, the directory is skipped
    as unchanged: nothing is written to the store, neither the Directory row
    nor a MediaFile row, and nothing is enqueued. *)
Theorem absent_token_is_skipped (fuel : nat) (st : Crawl World) (dir_url : str)
    (parent_url : option str) (rest : list (str * option str))
    (w : World) (html : str) (parsed : ParsedPage) (stored : DirRow) :
  queue st = (dir_url, parent_url) :: rest ->
  _fetch_page (world st) dir_url = (w, Some html) ->
  parse_directory_page' html dir_url = Ok parsed ->
  dirs (db st) !! dir_url = Some stored ->
  d_modified stored = None ->
  dir_modified parsed = None ->
  exists st',
    crawl_loop' true (S fuel) st = crawl_loop' true fuel st'
    /\ db st' = db st
    /\ queue st' = rest
    /\ only_adds is_store_write st st'.
Proof.
  intros Hq Hfetch Hparse Hrow Hstored Htoken.
  eapply unchanged_dir_is_skipped; eauto. congruence.
Qed.

(** *** The bulk deletion *)

Lemma insert_files_only_adds kind rel_path fs (st : Crawl World) n :
  (forall url r, kind (EvUpsertMedia url r) = false) ->
  only_adds kind st (fold_left (fun acc f => insert_file' rel_path f acc) fs (st, n)).1.
Proof.
  intros Hk. revert st n. induction fs as [|f fs IH]; intros st n; simpl.
  - apply only_adds_refl.
  - destruct (negb (_should_keep_file (fe_name f) cfg)); [apply IH|].
    eapply only_adds_trans; [|apply IH]. by apply only_adds_execute.
Qed.

Lemma reindex_only_adds_no_bulk dir_url parent_url rel_path parsed (st : Crawl World) :
  only_adds is_bulk_delete st (reindex' dir_url parent_url rel_path parsed st).
Proof.
  unfold reindex.
  set (st1 := execute (EvUpsertDir _ _) _ st).
  set (st2 := execute (EvDeleteMediaForPath _ _) _ st1).
  pose proof (insert_files_only_adds is_bulk_delete rel_path (files parsed) st2 0
                (fun _ _ => eq_refl)) as H3.
  destruct (fold_left _ (files parsed) (st2, 0)) as [st3 n]. simpl in H3.
  assert (H : only_adds is_bulk_delete st st3).
  { eapply only_adds_trans; [|exact H3].
    eapply only_adds_trans; by apply only_adds_execute. }
  cbv zeta. match goal with |- context [if ?c then _ else _] => destruct c end.
  - eapply only_adds_trans; [exact H|]. eapply only_adds_trans;
      [|by apply only_adds_execute]. by apply only_adds_same_events.
  - eapply only_adds_trans; [exact H|]. by apply only_adds_same_events.
Qed.

Lemma crawl_pass_no_bulk incremental item (st : Crawl World) :
  match crawl_pass' incremental item st with
  | Continue st' | Propagate _ st' => only_adds is_bulk_delete st st'
  end.
Proof.
  unfold crawl_pass. destruct item as [dir_url parent_url].
  destruct (_is_blocked_dir _ cfg); [apply only_adds_refl|].
  destruct (_fetch_page (world st) dir_url) as [w html].
  set (st1 := with_world w (execute (EvFetch dir_url) id st)).
  assert (H1 : only_adds is_bulk_delete st st1) by by apply (only_adds_execute _ _ id).
  destruct html as [html|]; [|done].
  destruct (parse_directory_page' html dir_url) as [parsed|e]; [|done].
  destruct incremental.
  - set (st2 := execute (EvSelectDir dir_url) id st1).
    assert (H2 : only_adds is_bulk_delete st st2).
    { eapply only_adds_trans; [exact H1 | by apply only_adds_execute]. }
    destruct (select_dir_modified dir_url (db st1)) as [m|].
    + destruct (bool_decide _).
      * eapply only_adds_trans; [exact H2 | by apply only_adds_same_events].
      * eapply only_adds_trans; [exact H2 | apply reindex_only_adds_no_bulk].
    + eapply only_adds_trans; [exact H2 | apply reindex_only_adds_no_bulk].
  - eapply only_adds_trans; [exact H1 | apply reindex_only_adds_no_bulk].
Qed.

Lemma crawl_loop_no_bulk incremental fuel (st : Crawl World) :
  only_adds is_bulk_delete st (crawl_loop' incremental fuel st).1.
Proof.
  revert st. induction fuel as [|fuel IH]; intros st; simpl.
  - destruct (queue st); apply only_adds_refl.
  - destruct (queue st) as [|item rest]; [apply only_adds_refl|].
    pose proof (crawl_pass_no_bulk incremental item (with_queue rest st)) as Hp.
    destruct (crawl_pass' incremental item (with_queue rest st)) as [st'|e st'].
    + eapply only_adds_trans; [|apply IH].
      eapply only_adds_trans; [|exact Hp]. by apply only_adds_same_events.
    + simpl. eapply only_adds_trans; [|exact Hp]. by apply only_adds_same_events.
Qed.

Lemma crawl_root_no_bulk incremental fuel conn w :
  only_adds is_bulk_delete (crawl_start' incremental conn w)
            (crawl_root' incremental fuel conn w).1.
Proof.
  unfold crawl_root.
  pose proof (crawl_loop_no_bulk incremental fuel (crawl_start' incremental conn w)) as H.
  destruct (crawl_loop' incremental fuel _) as [st []]; simpl in *; try done.
  eapply only_adds_trans; [exact H | by apply only_adds_execute].
Qed.

(** C7: a full crawl first deletes the media rows and the directory rows of
    its root and commits, which leaves no row of the root in the store, and
    only then puts the root in the queue; whatever the run does afterwards,
    for as long as it runs, is no bulk deletion. An incremental crawl starts
    from the store as it is and never does a bulk deletion. *)
Theorem bulk_delete_only_before_full_crawl (fuel : nat) (conn : Store) (w : World) :
  (events (crawl_start' false conn w)
     = [EvDeleteMediaForRoot (root_url root_cfg);
        EvDeleteDirsForRoot (root_url root_cfg); EvCommit]
   /\ no_rows_of (root_url root_cfg) (db (crawl_start' false conn w))
   /\ queue (crawl_start' false conn w) = [(root_url root_cfg, None)]
   /\ only_adds is_bulk_delete (crawl_start' false conn w)
                (crawl_root' false fuel conn w).1)
  /\ (events (crawl_start' true conn w) = []
   /\ db (crawl_start' true conn w) = conn
   /\ queue (crawl_start' true conn w) = [(root_url root_cfg, None)]
   /\ Forall (fun e => is_bulk_delete e = false)
             (events (crawl_root' true fuel conn w).1)).
Proof.
  split; split_and!; try done.
  - split; simpl; intros url r Hr.
    + by apply map_lookup_filter_Some in Hr as [_ Hr].
    + by apply map_lookup_filter_Some in Hr as [_ Hr].
  - apply crawl_root_no_bulk.
  - destruct (crawl_root_no_bulk true fuel conn w) as (evs & -> & Hevs). done.
Qed.

End Crawl.

(** ** The crawl on the example site *)

Abbreviation demo_crawl_loop :=
  (crawl_loop demo_urljoin demo_urlparse demo_urlunparse demo_unquote
     demo_BeautifulSoup unit demo_fetch_page demo_root demo_cfg).
Abbreviation demo_crawl_root :=
  (crawl_root demo_urljoin demo_urlparse demo_urlunparse demo_unquote
     demo_BeautifulSoup unit demo_fetch_page demo_root demo_cfg).

Lemma blocked_dir_is_discarded_witness :
  let st := mkCrawl (mkStore ∅ ∅) [] tt
              [("http://x/Movies/Extras/", Some "http://x/Movies/");
               ("http://x/Movies/A/", Some "http://x/Movies/")] 0 0 0 in
  _path_from_root "http://x/Movies/" "http://x/Movies/Extras/" = "/Extras"
  /\ demo_crawl_loop false 1 st
     = demo_crawl_loop false 0
         (with_queue [("http://x/Movies/A/", Some "http://x/Movies/")] st).
Proof.
  split; [by vm_compute|].
  eapply (blocked_dir_is_discarded demo_urljoin demo_urlparse demo_urlunparse
            demo_unquote demo_BeautifulSoup unit demo_fetch_page demo_root demo_cfg).
  - reflexivity.
  - apply load_crawl_config_blocked_lower.
  - exists "extras". split; [apply elem_of_cons; by left | by vm_compute].
Defined.

Lemma same_token_is_skipped_witness :
  let conn := mkStore {["http://x/Movies/" :=
                          mkDirRow "http://x/Movies/" None "" (Some "2024-01-02")]} ∅ in
  let st := mkCrawl conn [] tt
              [("http://x/Movies/", None); ("http://x/Movies/Empty/", None)] 0 0 0 in
  exists st',
    demo_crawl_loop true 1 st = demo_crawl_loop true 0 st'
    /\ db st' = db st
    /\ queue st' = [("http://x/Movies/Empty/", None)]
    /\ only_adds is_store_write st st'.
Proof.
  eapply (same_token_is_skipped demo_urljoin demo_urlparse demo_urlunparse
            demo_unquote demo_BeautifulSoup unit demo_fetch_page demo_root demo_cfg
            0 _ "http://x/Movies/" None _ tt "<generic>" _ _ "2024-01-02").
  - reflexivity.
  - by vm_compute.
  - by vm_compute.
  - by vm_compute.
  - reflexivity.
  - reflexivity.
Defined.

Lemma absent_token_is_skipped_witness :
  let conn := mkStore {["http://x/Movies/Empty/" :=
                          mkDirRow "http://x/Movies/" (Some "http://x/Movies/")
                                   "Empty" None]} ∅ in
  let st := mkCrawl conn [] tt
              [("http://x/Movies/Empty/", Some "http://x/Movies/")] 0 0 0 in
  exists st',
    demo_crawl_loop true 1 st = demo_crawl_loop true 0 st'
    /\ db st' = db st
    /\ queue st' = []
    /\ only_adds is_store_write st st'.
Proof.
  eapply (absent_token_is_skipped demo_urljoin demo_urlparse demo_urlunparse
            demo_unquote demo_BeautifulSoup unit demo_fetch_page demo_root demo_cfg
            0 _ "http://x/Movies/Empty/" (Some "http://x/Movies/") _ tt
            "no listing here").
  - reflexivity.
  - by vm_compute.
  - by vm_compute.
  - by vm_compute.
  - reflexivity.
  - reflexivity.
Defined.

(** ** More on strings *)

Lemma str_app_assoc (s t u : str) : (s +:+ t) +:+ u = s +:+ (t +:+ u).
Proof. induction s as [|a s IH]; [done|]. by rewrite !app_String, IH. Qed.

Lemma str_app_empty_r (s : str) : s +:+ "" = s.
Proof. induction s as [|a s IH]; [done|]. by rewrite app_String, IH. Qed.

Lemma str_app_inj_tail (s t : str) c d :
  s +:+ String c "" = t +:+ String d "" -> s = t /\ c = d.
Proof.
  revert t. induction s as [|a s IH]; intros [|b t] H.
  - by injection H as ->.
  - injection H as -> H. by destruct t.
  - injection H as -> H. by destruct s.
  - rewrite !app_String in H. injection H as -> H.
    destruct (IH t H) as [-> ->]. done.
Qed.

Lemma str_snoc_cases (s : str) : s = "" \/ exists t c, s = t +:+ String c "".
Proof.
  induction s as [|a s [-> | (t & c & ->)]]; [by left | right..].
  - by exists "", a.
  - by exists (String a t), c.
Qed.

Lemma str_endswith_unfold s p :
  str_endswith s p =
  String.eqb s p || match s with
                    | EmptyString => false
                    | String _ s' => str_endswith s' p
                    end.
Proof. by destruct s. Qed.

Lemma str_endswith_app s p :
  str_endswith s p = true <-> exists t, s = t +:+ p.
Proof.
  induction s as [|a s IH]; rewrite str_endswith_unfold.
  - rewrite orb_false_r, String.eqb_eq. split.
    + intros <-. by exists "".
    + intros [[|b t] H]; [done | discriminate H].
  - rewrite orb_true_iff, IH, String.eqb_eq. split.
    + intros [<- | [t ->]]; [by exists "" | by exists (String a t)].
    + intros [[|b t] H]; [by left|]. right. rewrite app_String in H.
      injection H as -> ->. by exists t.
Qed.

Lemma str_rstrip_by_snoc p s c :
  p c = true -> str_rstrip_by p (s +:+ String c "") = str_rstrip_by p s.
Proof.
  intros Hc. induction s as [|a s IH]; [simpl; by rewrite Hc|].
  rewrite app_String. simpl. by rewrite IH.
Qed.

Lemma str_rstrip_by_idemp p s :
  str_rstrip_by p (str_rstrip_by p s) = str_rstrip_by p s.
Proof.
  induction s as [|a s IH]; [done|]. simpl.
  destruct (str_rstrip_by p s) as [|b r] eqn:E.
  - destruct (p a) eqn:Ha; simpl; [done | by rewrite Ha].
  - simpl in *. by rewrite IH.
Qed.

(** What [rstrip] leaves does not end in a character it strips. *)
Lemma str_rstrip_by_last p s t c :
  str_rstrip_by p s = t +:+ String c "" -> p c = false.
Proof.
  revert t. induction s as [|a s IH]; intros t; simpl.
  - by destruct t.
  - destruct (str_rstrip_by p s) as [|b r] eqn:E.
    + destruct (p a) eqn:Ha; [by destruct t|].
      destruct t as [|a' t]; [by intros [= <-] | intros [= _ H]; by destruct t].
    + destruct t as [|a' t]; [done|]. rewrite app_String. intros [= _ H]. by eapply IH.
Qed.

Lemma str_rstrip_by_not_endswith p s c :
  p c = true -> str_endswith (str_rstrip_by p s) (String c "") = false.
Proof.
  intros Hc. apply not_true_is_false. intros [t Ht]%str_endswith_app.
  apply str_rstrip_by_last in Ht. congruence.
Qed.

Lemma str_lower_app s t : str_lower (s +:+ t) = str_lower s +:+ str_lower t.
Proof.
  induction s as [|a s IH]; [done|]. unfold str_lower in *.
  rewrite app_String. simpl. by rewrite IH.
Qed.

Lemma str_split_nonempty c s : str_split c s <> [].
Proof.
  destruct s as [|a s]; simpl; [done|].
  destruct (str_split c s); [done|]. by destruct (Ascii.eqb a c).
Qed.

(** No piece of a split contains the separator. *)
Lemma str_split_pieces c s w :
  w ∈ str_split c s -> str_contains (String c "") w = false.
Proof.
  revert w. induction s as [|a s IH]; intros w; simpl.
  - by intros ->%list_elem_of_singleton.
  - destruct (str_split c s) as [|w0 ws]; [by intros ->%list_elem_of_singleton|].
    destruct (Ascii.eqb a c) eqn:Ha.
    + intros [-> | Hw]%elem_of_cons; [done | by apply IH].
    + intros [-> | Hw]%elem_of_cons.
      * rewrite str_contains_char, Ascii.eqb_sym, Ha. simpl. apply IH. by left.
      * apply IH. by right.
Qed.

Lemma last_piece_elem l : l <> [] -> last_piece l ∈ l.
Proof.
  unfold last_piece. induction l as [|x l IH]; [done|]. intros _.
  destruct l as [|y l]; [by left|]. right. by apply IH.
Qed.

Lemma final_segment_no_slash path : str_contains "/" (final_segment path) = false.
Proof.
  eapply str_split_pieces, last_piece_elem, str_split_nonempty.
Qed.

(** ** More on the crawl policy *)

(** X1: the normalised root URL ends with exactly one [/]; normalising
    is idempotent, and a URL with one more trailing [/] normalises to the
    same root. *)
Theorem normalize_root_url_one_slash (url : str) :
  str_endswith (normalize_root_url url) "/" = true
  /\ str_endswith (normalize_root_url url) "//" = false
  /\ normalize_root_url (normalize_root_url url) = normalize_root_url url
  /\ normalize_root_url (url +:+ "/") = normalize_root_url url.
Proof.
  unfold normalize_root_url, str_rstrip_chars. split_and!.
  - apply str_endswith_app. eauto.
  - apply not_true_is_false. intros [t Ht]%str_endswith_app.
    change "//" with ("/" +:+ "/") in Ht. rewrite <- str_app_assoc in Ht.
    apply str_app_inj_tail in Ht as [Ht _].
    by apply str_rstrip_by_last in Ht.
  - by rewrite str_rstrip_by_snoc, str_rstrip_by_idemp.
  - by rewrite str_rstrip_by_snoc.
Qed.

(** X2: on names written in ASCII, an extension of the raw configuration is
    matched without regard to its case or to leading dots: a file whose name
    ends in a [.] and an extension that equals the configured one, lower-cased
    and without its leading dots, up to case, is kept by the loaded
    configuration. *)
Theorem configured_extension_keeps_file (raw : RawCrawlConfig) (e stem ext : str) :
  is_ascii_str e = true -> is_ascii_str stem = true -> is_ascii_str ext = true ->
  e ∈ raw_video_extensions raw ->
  str_contains "." ext = false ->
  str_lower ext = str_lstrip_chars "." (str_lower e) ->
  _should_keep_file (stem +:+ "." +:+ ext) (load_crawl_config raw) = true.
Proof.
  intros _ _ _ He Hdot Hext. apply should_keep_file_iff. right.
  exists (str_lower stem), (str_lower ext). split_and!.
  - by rewrite !str_lower_app.
  - by rewrite str_lower_dot.
  - simpl. rewrite Hext. apply list_elem_of_fmap. by exists e.
Qed.

Lemma configured_extension_keeps_file_witness :
  _should_keep_file "Show.S01E02.MKV"
    (load_crawl_config (mkRawCrawlConfig ["mp4"; "..Mkv"] [])) = true.
Proof.
  apply (configured_extension_keeps_file (mkRawCrawlConfig ["mp4"; "..Mkv"] [])
           "..Mkv" "Show.S01E02" "MKV"); try by vm_compute.
  apply elem_of_cons. right. apply elem_of_cons. by left.
Defined.

(** X3: with the loaded configuration, a path is blocked exactly when its
    last segment equals, up to case, one of the raw blocked names with its
    surrounding white space removed; that segment never contains a [/], so
    only the last segment of the path decides. *)
Theorem blocked_dir_iff (raw : RawCrawlConfig) (path : str) :
  (_is_blocked_dir path (load_crawl_config raw) = true <->
   exists b, b ∈ raw_blocked_dirs raw
             /\ str_lower (str_strip b) = str_lower (final_segment path))
  /\ str_contains "/" (final_segment path) = false.
Proof.
  split; [|apply final_segment_no_slash].
  unfold _is_blocked_dir, load_crawl_config. simpl.
  fold (final_segment path).
  destruct (raw_blocked_dirs raw) as [|b0 bs] eqn:E; simpl.
  - split; [done | intros (b & Hb & _); by apply elem_of_nil in Hb].
  - rewrite bool_decide_eq_true.
    change (str_lower (str_strip b0) :: map (fun b => str_lower (str_strip b)) bs)
      with ((fun b => str_lower (str_strip b)) <$> (b0 :: bs)).
    rewrite list_elem_of_fmap. split.
    + intros (b & Hb & Hin). by exists b.
    + intros (b & Hin & Hb). by exists b.
Qed.

Lemma blocked_dir_iff_witness :
  _is_blocked_dir "/Movies/EXTRAS"
    (load_crawl_config (mkRawCrawlConfig [] ["samples"; " Extras "])) = true.
Proof.
  apply (proj1 (blocked_dir_iff (mkRawCrawlConfig [] ["samples"; " Extras "])
                  "/Movies/EXTRAS")).
  exists " Extras ". split; [|by vm_compute].
  apply elem_of_cons. right. apply elem_of_cons. by left.
Defined.

Lemma str_startswith_snoc_inv d r c :
  str_startswith d r = false -> str_startswith (d +:+ String c "") r = true ->
  d +:+ String c "" = r.
Proof.
  intros Hd [y Hy]%str_startswith_app.
  destruct (str_snoc_cases y) as [-> | (y' & c' & ->)].
  - by rewrite str_app_empty_r in Hy.
  - rewrite <- str_app_assoc in Hy. apply str_app_inj_tail in Hy as [-> _].
    assert (str_startswith (r +:+ y') r = true) by (apply str_startswith_app; eauto).
    congruence.
Qed.

Lemma normalize_root_url_snoc url :
  normalize_root_url (url +:+ "/") = normalize_root_url url.
Proof. unfold normalize_root_url, str_rstrip_chars. by rewrite str_rstrip_by_snoc. Qed.

Lemma path_from_root_under root_url rest :
  _path_from_root root_url (normalize_root_url root_url +:+ rest)
  = "/" +:+ str_rstrip_chars "/" rest.
Proof.
  unfold _path_from_root.
  assert (H : str_startswith (normalize_root_url root_url +:+ rest)
                (normalize_root_url root_url) = true)
    by (apply str_startswith_app; eauto).
  rewrite H, str_drop_app. simpl. by destruct (str_rstrip_chars _ _).
Qed.

(** X4: the root-relative path is [/] or does not end with [/]; the root
    itself has the path [/]; and a trailing [/] on the directory URL or on the
    root URL changes nothing. *)
Theorem path_from_root_no_trailing_slash (root_url dir_url : str) :
  (_path_from_root root_url dir_url = "/"
   \/ str_endswith (_path_from_root root_url dir_url) "/" = false)
  /\ _path_from_root root_url (normalize_root_url root_url) = "/"
  /\ _path_from_root root_url (dir_url +:+ "/") = _path_from_root root_url dir_url
  /\ _path_from_root (root_url +:+ "/") dir_url = _path_from_root root_url dir_url.
Proof.
  split_and!.
  - unfold _path_from_root. destruct (negb _); [by left|].
    destruct (str_rstrip_chars "/" _) as [|a rel] eqn:E; [by left|]. right.
    apply not_true_is_false. intros [t Ht]%str_endswith_app.
    change ("/" +:+ String a rel) with (String "/" (String a rel)) in Ht.
    destruct t as [|b t]; [discriminate Ht|].
    rewrite app_String in Ht. injection Ht as _ Ht.
    unfold str_rstrip_chars in E. rewrite Ht in E.
    by apply str_rstrip_by_last in E.
  - rewrite <- (str_app_empty_r (normalize_root_url root_url)).
    by rewrite path_from_root_under.
  - unfold _path_from_root.
    destruct (str_startswith dir_url (normalize_root_url root_url)) eqn:Hd.
    + apply str_startswith_app in Hd as [x ->]. rewrite str_app_assoc.
      assert (H : str_startswith (normalize_root_url root_url +:+ x +:+ "/")
                    (normalize_root_url root_url) = true)
        by (apply str_startswith_app; eauto).
      rewrite H. simpl. rewrite !str_drop_app. unfold str_rstrip_chars.
      by rewrite str_rstrip_by_snoc.
    + simpl.
      destruct (str_startswith (dir_url +:+ "/") (normalize_root_url root_url)) eqn:Hd';
        [|done].
      simpl. rewrite (str_startswith_snoc_inv _ _ _ Hd Hd').
      rewrite <- (str_app_empty_r (normalize_root_url root_url)) at 2.
      by rewrite str_drop_app.
  - unfold _path_from_root.
    by rewrite normalize_root_url_snoc.
Qed.

(** ** More on the crawl *)

Section CrawlMore.
Variable urljoin : str -> str -> exc str.
Variable urlparse : str -> exc ParseResult.
Variable urlunparse : ParseResult -> str.
Variable unquote : str -> str.
Variable BeautifulSoup : str -> Node.
Variable World : Type.
Variable _fetch_page : World -> str -> World * option str.
Variable root_cfg : RootConfig.
Variable cfg : CrawlConfig.

Abbreviation parse_directory_page' :=
  (parse_directory_page urljoin urlparse urlunparse unquote BeautifulSoup).
Abbreviation crawl_pass' :=
  (crawl_pass urljoin urlparse urlunparse unquote BeautifulSoup World _fetch_page
     root_cfg cfg).
Abbreviation crawl_loop' :=
  (crawl_loop urljoin urlparse urlunparse unquote BeautifulSoup World _fetch_page
     root_cfg cfg).
Abbreviation crawl_start' := (crawl_start World root_cfg).
Abbreviation crawl_root' :=
  (crawl_root urljoin urlparse urlunparse unquote BeautifulSoup World _fetch_page
     root_cfg cfg).
Abbreviation reindex' := (reindex World root_cfg cfg).
Abbreviation insert_file' := (insert_file World root_cfg cfg).

(** What the loop over the files of a page leaves of the state. *)
Lemma insert_files_state rel_path fs (st : Crawl World) n :
  let st' := (fold_left (fun acc f => insert_file' rel_path f acc) fs (st, n)).1 in
  dirs (db st') = dirs (db st)
  /\ media (db st')
     = fold_left (fun m f =>
                    if _should_keep_file (fe_name f) cfg
                    then <[fe_url f := media_row_of (root_url root_cfg) rel_path f]> m
                    else m) fs (media (db st))
  /\ queue st' = queue st /\ world st' = world st
  /\ processed_dirs st' = processed_dirs st
  /\ inserted_files st' = inserted_files st /\ skipped_dirs st' = skipped_dirs st.
Proof.
  revert st n. induction fs as [|f fs IH]; intros st n; [done|]. simpl.
  destruct (_should_keep_file (fe_name f) cfg); simpl; [|apply IH].
  destruct (IH (execute (EvUpsertMedia (fe_url f)
                   (mkMediaRow (root_url root_cfg) rel_path (fe_name f)
                      (fe_modified f) (fe_size f)))
                   (upsert_media (fe_url f)
                      (mkMediaRow (root_url root_cfg) rel_path (fe_name f)
                         (fe_modified f) (fe_size f))) st) (n + 1))
    as (H1 & H2 & H3 & H4 & H5 & H6 & H7).
  split_and!; done.
Qed.

Lemma reindex_state dir_url parent_url parsed (st : Crawl World) :
  let rel_path := _path_from_root (root_url root_cfg) dir_url in
  let st' := reindex' dir_url parent_url rel_path parsed st in
  dirs (db st') = <[dir_url := dir_row_of (root_url root_cfg) dir_url parent_url parsed]> (dirs (db st))
  /\ media (db st')
     = fold_left (fun m f =>
                    if _should_keep_file (fe_name f) cfg
                    then <[fe_url f := media_row_of (root_url root_cfg) rel_path f]> m
                    else m) (files parsed)
         (filter (fun kv => ¬ (m_root kv.2 = root_url root_cfg /\ m_path kv.2 = rel_path))
                 (media (db st)))
  /\ queue st' = queue st ++ map (fun d => (de_url d, Some dir_url)) (subdirs parsed)
  /\ world st' = world st
  /\ processed_dirs st' = processed_dirs st + 1.
Proof.
  cbv zeta. unfold reindex.
  match goal with
  | |- context [fold_left ?f (files parsed) (?s, 0)] =>
      pose proof (insert_files_state (_path_from_root (root_url root_cfg) dir_url)
                    (files parsed) s 0) as H;
      destruct (fold_left f (files parsed) (s, 0)) as [st3 n]
  end.
  cbv zeta in H. simpl in H. destruct H as (H1 & H2 & H3 & H4 & H5 & H6 & H7).
  match goal with |- context [if ?c then _ else _] => destruct c end;
    simpl; rewrite H1, H2, H3, H4, H5; done.
Qed.

(** A pass that does not skip its directory reindexes it, from a state in
    which the store and the queue are as before. *)
Lemma pass_reindexes incremental (st : Crawl World) dir_url parent_url w html parsed :
  _is_blocked_dir (_path_from_root (root_url root_cfg) dir_url) cfg = false ->
  _fetch_page (world st) dir_url = (w, Some html) ->
  parse_directory_page' html dir_url = Ok parsed ->
  (incremental = false
   \/ forall stored, dirs (db st) !! dir_url = Some stored ->
                     d_modified stored <> dir_modified parsed) ->
  exists st1,
    crawl_pass' incremental (dir_url, parent_url) st
    = Continue (reindex' dir_url parent_url
                  (_path_from_root (root_url root_cfg) dir_url) parsed st1)
    /\ db st1 = db st /\ queue st1 = queue st /\ world st1 = w
    /\ processed_dirs st1 = processed_dirs st.
Proof.
  intros Hb Hf Hp Hre. unfold crawl_pass. rewrite Hb, Hf, Hp.
  destruct incremental.
  - destruct Hre as [? | Hre]; [done|].
    unfold select_dir_modified. simpl.
    destruct (dirs (db st) !! dir_url) as [stored|] eqn:Hrow; simpl.
    + rewrite bool_decide_eq_false_2 by by apply Hre. by eexists.
    + by eexists.
  - by eexists.
Qed.

(** X5: when the page of a dequeued directory that is not blocked fails
    to load, the item is dropped: the only thing done is the fetch, the store
    is as before, nothing is enqueued, and the run goes on with the rest of
    the queue. *)
Theorem failed_fetch_is_discarded (incremental : bool) (fuel : nat)
    (st : Crawl World) (dir_url : str) (parent_url : option str)
    (rest : list (str * option str)) (w : World) :
  queue st = (dir_url, parent_url) :: rest ->
  _is_blocked_dir (_path_from_root (root_url root_cfg) dir_url) cfg = false ->
  _fetch_page (world st) dir_url = (w, None) ->
  exists st',
    crawl_loop' incremental (S fuel) st = crawl_loop' incremental fuel st'
    /\ db st' = db st /\ queue st' = rest /\ world st' = w
    /\ events st' = events st ++ [EvFetch dir_url].
Proof.
  intros Hq Hb Hf. simpl. rewrite Hq. unfold crawl_pass. rewrite Hb. simpl.
  rewrite Hf. by eexists.
Qed.

(** X6: a pass that does not skip its directory (full mode, or no stored
    row with the token of the page) leaves the Directory row of that URL with
    the root, the parent, the name and the token of the page, so that the
    token read back for the URL is the one just parsed; the rows of other
    URLs are as before; every subdirectory of the page is appended to the
    queue in page order with this directory as its parent, blocked or not;
    and the count of processed directories grows by one. *)
Theorem reindexed_directory_row (incremental : bool) (st : Crawl World)
    (dir_url : str) (parent_url : option str) (w : World) (html : str)
    (parsed : ParsedPage) :
  _is_blocked_dir (_path_from_root (root_url root_cfg) dir_url) cfg = false ->
  _fetch_page (world st) dir_url = (w, Some html) ->
  parse_directory_page' html dir_url = Ok parsed ->
  (incremental = false
   \/ forall stored, dirs (db st) !! dir_url = Some stored ->
                     d_modified stored <> dir_modified parsed) ->
  exists st',
    crawl_pass' incremental (dir_url, parent_url) st = Continue st'
    /\ dirs (db st') !! dir_url
       = Some (dir_row_of (root_url root_cfg) dir_url parent_url parsed)
    /\ select_dir_modified dir_url (db st') = Some (dir_modified parsed)
    /\ (forall url, url <> dir_url -> dirs (db st') !! url = dirs (db st) !! url)
    /\ queue st'
       = queue st ++ map (fun d => (de_url d, Some dir_url)) (subdirs parsed)
    /\ processed_dirs st' = processed_dirs st + 1.
Proof.
  intros Hb Hf Hp Hre.
  destruct (pass_reindexes incremental st dir_url parent_url w html parsed Hb Hf Hp Hre)
    as (st1 & -> & Hdb & Hq & Hw & Hn).
  destruct (reindex_state dir_url parent_url parsed st1) as (H1 & H2 & H3 & H4 & H5).
  eexists. split; [done|]. unfold select_dir_modified.
  rewrite H1, H3, H5, Hdb, Hq, Hn. split_and!; try done.
  - by rewrite lookup_insert_eq.
  - by rewrite lookup_insert_eq.
  - intros url Hne. by rewrite lookup_insert_ne.
Qed.

(** *** The media rows of a directory *)

Section InsertFiles.
Variable keep : ParsedFileEntry -> bool.
Variable row_of : ParsedFileEntry -> MediaRow.

Abbreviation insert_kept :=
  (fold_left (fun (m : gmap str MediaRow) f =>
                if keep f then <[fe_url f := row_of f]> m else m)).

Lemma insert_kept_lookup fs (m : gmap str MediaRow) url r :
  insert_kept fs m !! url = Some r ->
  m !! url = Some r
  \/ exists f, f ∈ fs /\ keep f = true /\ url = fe_url f /\ r = row_of f.
Proof.
  revert m. induction fs as [|f fs IH]; intros m; simpl; [by left|].
  intros [H | (f' & Hin & Hk & -> & ->)]%IH.
  - destruct (keep f) eqn:Hk; [|by left].
    destruct (decide (fe_url f = url)) as [<- | Hne].
    + rewrite lookup_insert_eq in H. injection H as <-. right. exists f.
      split_and!; try done. by left.
    + rewrite lookup_insert_ne in H by done. by left.
  - right. exists f'. split_and!; try done. by right.
Qed.

Lemma insert_kept_other fs (m : gmap str MediaRow) url :
  (forall f, f ∈ fs -> keep f = true -> fe_url f <> url) ->
  insert_kept fs m !! url = m !! url.
Proof.
  revert m. induction fs as [|f fs IH]; intros m Hne; simpl; [done|].
  rewrite IH by (intros f' Hf'; apply Hne; by right).
  destruct (keep f) eqn:Hk; [|done].
  rewrite lookup_insert_ne; [done|]. apply Hne; [by left | done].
Qed.

Lemma insert_kept_stays fs (m : gmap str MediaRow) url r :
  m !! url = Some r ->
  exists r', insert_kept fs m !! url = Some r'
    /\ (r' = r \/ exists f, f ∈ fs /\ keep f = true /\ url = fe_url f /\ r' = row_of f).
Proof.
  revert m r. induction fs as [|f fs IH]; intros m r Hm; simpl; [eauto|].
  destruct (keep f) eqn:Hk.
  - destruct (decide (fe_url f = url)) as [<- | Hne].
    + destruct (IH (<[fe_url f := row_of f]> m) (row_of f)) as (r' & Hr' & Hcase);
        [by rewrite lookup_insert_eq|].
      exists r'. split; [done|]. right. destruct Hcase as [-> | (f' & ? & ? & ? & ?)].
      * exists f. split_and!; try done. by left.
      * exists f'. split_and!; try done. by right.
    + destruct (IH (<[fe_url f := row_of f]> m) r) as (r' & Hr' & Hcase);
        [by rewrite lookup_insert_ne|].
      exists r'. split; [done|]. destruct Hcase as [-> | (f' & ? & ? & ? & ?)];
        [by left|]. right. exists f'. split_and!; try done. by right.
  - destruct (IH m r Hm) as (r' & Hr' & Hcase).
    exists r'. split; [done|]. destruct Hcase as [-> | (f' & ? & ? & ? & ?)];
      [by left|]. right. exists f'. split_and!; try done. by right.
Qed.

Lemma insert_kept_present fs (m : gmap str MediaRow) f :
  f ∈ fs -> keep f = true ->
  exists f', f' ∈ fs /\ keep f' = true /\ fe_url f' = fe_url f
             /\ insert_kept fs m !! fe_url f = Some (row_of f').
Proof.
  revert m. induction fs as [|f0 fs IH]; intros m Hin Hk; [by apply elem_of_nil in Hin|].
  apply elem_of_cons in Hin as [<- | Hin]; simpl.
  - rewrite Hk.
    destruct (insert_kept_stays fs (<[fe_url f := row_of f]> m) (fe_url f) (row_of f))
      as (r' & Hr' & Hcase); [by rewrite lookup_insert_eq|].
    destruct Hcase as [-> | (f' & ? & ? & ? & ->)].
    + exists f. split_and!; try done. by left.
    + exists f'. split_and!; try done. by right.
  - destruct (IH (if keep f0 then <[fe_url f0 := row_of f0]> m else m) Hin Hk)
      as (f' & ? & ? & ? & ?).
    exists f'. split_and!; try done. by right.
Qed.
End InsertFiles.

(** X7: after a pass that reindexes a directory, the media rows of the
    root under the path of the directory are exactly rows of kept files of the
    page (rows of files no longer listed are gone), every kept file of the
    page has a row at its URL, and the rows of other directories whose URL no
    kept file of the page has are as before. *)
Theorem reindexed_media_rows (incremental : bool) (st : Crawl World)
    (dir_url : str) (parent_url : option str) (w : World) (html : str)
    (parsed : ParsedPage) :
  _is_blocked_dir (_path_from_root (root_url root_cfg) dir_url) cfg = false ->
  _fetch_page (world st) dir_url = (w, Some html) ->
  parse_directory_page' html dir_url = Ok parsed ->
  (incremental = false
   \/ forall stored, dirs (db st) !! dir_url = Some stored ->
                     d_modified stored <> dir_modified parsed) ->
  let root := root_url root_cfg in
  let rel_path := _path_from_root root dir_url in
  exists st',
    crawl_pass' incremental (dir_url, parent_url) st = Continue st'
    /\ (forall url r,
          media (db st') !! url = Some r -> m_root r = root -> m_path r = rel_path ->
          exists f, f ∈ files parsed /\ _should_keep_file (fe_name f) cfg = true
                    /\ url = fe_url f /\ r = media_row_of root rel_path f)
    /\ (forall f,
          f ∈ files parsed -> _should_keep_file (fe_name f) cfg = true ->
          exists f', f' ∈ files parsed /\ _should_keep_file (fe_name f') cfg = true
                     /\ fe_url f' = fe_url f
                     /\ media (db st') !! fe_url f = Some (media_row_of root rel_path f'))
    /\ (forall url r,
          media (db st) !! url = Some r ->
          m_root r <> root \/ m_path r <> rel_path ->
          (forall f, f ∈ files parsed -> _should_keep_file (fe_name f) cfg = true ->
                     fe_url f <> url) ->
          media (db st') !! url = Some r).
Proof.
  intros Hb Hf Hp Hre root rel_path. subst root rel_path.
  destruct (pass_reindexes incremental st dir_url parent_url w html parsed Hb Hf Hp Hre)
    as (st1 & -> & Hdb & Hq & Hw & Hn).
  destruct (reindex_state dir_url parent_url parsed st1) as (_ & H2 & _).
  eexists. split; [done|]. cbv zeta in H2. rewrite H2, Hdb. clear H2.
  split_and!.
  - intros url r [H | H]%insert_kept_lookup Hroot Hpath; [|done].
    apply map_lookup_filter_Some in H as [_ H]. simpl in H. by destruct H.
  - intros f Hin Hk. by apply insert_kept_present.
  - intros url r Hr Hother Hne. rewrite insert_kept_other by done.
    apply map_lookup_filter_Some. split; [done|]. simpl. intros [? ?].
    by destruct Hother.
Qed.

(** *** The order of the writes of a pass *)

Lemma insert_files_events rel_path fs (st : Crawl World) n :
  events (fold_left (fun acc f => insert_file' rel_path f acc) fs (st, n)).1
  = events st
    ++ map (fun f => EvUpsertMedia (fe_url f) (media_row_of (root_url root_cfg) rel_path f))
           (List.filter (fun f => _should_keep_file (fe_name f) cfg) fs).
Proof.
  revert st n. induction fs as [|f fs IH]; intros st n; simpl.
  - by rewrite app_nil_r.
  - destruct (_should_keep_file (fe_name f) cfg); simpl; [|apply IH].
    rewrite IH. simpl. by rewrite <- app_assoc.
Qed.

(** X8: a pass that reindexes a directory does, in this order: the
    fetch, the lookup of the stored token in incremental mode, the upsert of
    the Directory row, the deletion of the media rows of the directory, one
    upsert for each kept file in page order, and a commit exactly when the
    count of processed directories reaches a multiple of 20. *)
Theorem reindexing_pass_events (incremental : bool) (st : Crawl World)
    (dir_url : str) (parent_url : option str) (w : World) (html : str)
    (parsed : ParsedPage) :
  _is_blocked_dir (_path_from_root (root_url root_cfg) dir_url) cfg = false ->
  _fetch_page (world st) dir_url = (w, Some html) ->
  parse_directory_page' html dir_url = Ok parsed ->
  (incremental = false
   \/ forall stored, dirs (db st) !! dir_url = Some stored ->
                     d_modified stored <> dir_modified parsed) ->
  let root := root_url root_cfg in
  let rel_path := _path_from_root root dir_url in
  exists st',
    crawl_pass' incremental (dir_url, parent_url) st = Continue st'
    /\ events st'
       = events st
         ++ [EvFetch dir_url]
         ++ (if incremental then [EvSelectDir dir_url] else [])
         ++ [EvUpsertDir dir_url (dir_row_of root dir_url parent_url parsed);
             EvDeleteMediaForPath root rel_path]
         ++ map (fun f => EvUpsertMedia (fe_url f) (media_row_of root rel_path f))
                (List.filter (fun f => _should_keep_file (fe_name f) cfg) (files parsed))
         ++ (if (processed_dirs st + 1) mod 20 =? 0 then [EvCommit] else []).
Proof.
  intros Hb Hf Hp Hre root rel_path. subst root rel_path.
  unfold crawl_pass. rewrite Hb, Hf, Hp.
  assert (Hgo : forall st1 : Crawl World,
            processed_dirs st1 = processed_dirs st ->
            events (reindex' dir_url parent_url
                      (_path_from_root (root_url root_cfg) dir_url) parsed st1)
            = events st1
              ++ [EvUpsertDir dir_url
                    (dir_row_of (root_url root_cfg) dir_url parent_url parsed);
                  EvDeleteMediaForPath (root_url root_cfg)
                    (_path_from_root (root_url root_cfg) dir_url)]
              ++ map (fun f => EvUpsertMedia (fe_url f)
                                 (media_row_of (root_url root_cfg)
                                    (_path_from_root (root_url root_cfg) dir_url) f))
                     (List.filter (fun f => _should_keep_file (fe_name f) cfg)
                                  (files parsed))
              ++ (if (processed_dirs st + 1) mod 20 =? 0 then [EvCommit] else [])).
  { intros st1 Hn. unfold reindex.
    match goal with
    | |- context [fold_left ?f (files parsed) (?s, 0)] =>
        pose proof (insert_files_events (_path_from_root (root_url root_cfg) dir_url)
                      (files parsed) s 0) as He;
        pose proof (insert_files_state (_path_from_root (root_url root_cfg) dir_url)
                      (files parsed) s 0) as Hs;
        destruct (fold_left f (files parsed) (s, 0)) as [st3 n]
    end.
    cbv zeta in Hs. simpl in He, Hs. destruct Hs as (_ & _ & _ & _ & Hp3 & _).
    cbv zeta. simpl. rewrite Hp3, Hn.
    destruct ((processed_dirs st + 1) mod 20 =? 0); simpl; rewrite He.
    - rewrite <- !app_assoc. done.
    - rewrite <- !app_assoc. simpl. by rewrite app_nil_r. }
  destruct incremental.
  - destruct Hre as [? | Hre]; [done|].
    unfold select_dir_modified. simpl.
    destruct (dirs (db st) !! dir_url) as [stored|] eqn:Hrow; simpl.
    + rewrite bool_decide_eq_false_2 by by apply Hre.
      eexists. split; [done|]. rewrite Hgo by done. simpl.
      by rewrite <- !app_assoc.
    + eexists. split; [done|]. rewrite Hgo by done. simpl. by rewrite <- !app_assoc.
  - eexists. split; [done|]. rewrite Hgo by done. simpl. by rewrite <- !app_assoc.
Qed.

(** *** What a run raises, and what it writes *)

(** X9: an exception raised while parsing a fetched page is not caught by
    the crawler. The pass ends the run with that exception, after the fetch
    and before any store statement for the directory, and the rest of the
    queue is not visited; when it is the page of the root, [crawl_root] ends
    with the exception right after what it did before its loop and the fetch,
    without its final commit. *)
Theorem parse_error_aborts_crawl (incremental : bool) (fuel : nat) (e : PyExn) :
  (forall (st : Crawl World) dir_url parent_url rest w html,
     queue st = (dir_url, parent_url) :: rest ->
     _is_blocked_dir (_path_from_root (root_url root_cfg) dir_url) cfg = false ->
     _fetch_page (world st) dir_url = (w, Some html) ->
     parse_directory_page' html dir_url = Raise e ->
     exists st',
       crawl_loop' incremental (S fuel) st = (st', Raised e)
       /\ db st' = db st /\ queue st' = rest /\ world st' = w
       /\ events st' = events st ++ [EvFetch dir_url])
  /\ (forall conn w w' html,
     _is_blocked_dir (_path_from_root (root_url root_cfg) (root_url root_cfg)) cfg
       = false ->
     _fetch_page w (root_url root_cfg) = (w', Some html) ->
     parse_directory_page' html (root_url root_cfg) = Raise e ->
     exists st',
       crawl_root' incremental (S fuel) conn w = (st', Raised e)
       /\ db st' = db (crawl_start' incremental conn w)
       /\ events st'
          = events (crawl_start' incremental conn w) ++ [EvFetch (root_url root_cfg)]).
Proof.
  split.
  - intros st dir_url parent_url rest w html Hq Hb Hf Hp.
    simpl. rewrite Hq. unfold crawl_pass. rewrite Hb. simpl. rewrite Hf, Hp.
    by eexists.
  - intros conn w w' html Hb Hf Hp. unfold crawl_root.
    assert (Hl : crawl_loop' incremental (S fuel) (crawl_start' incremental conn w)
                 = (with_world w' (execute (EvFetch (root_url root_cfg)) id
                      (with_queue [] (crawl_start' incremental conn w))), Raised e)).
    { destruct incremental; simpl; unfold crawl_pass; rewrite Hb; simpl;
        by rewrite Hf, Hp. }
    rewrite Hl. eexists. split; [done|]. by destruct incremental.
Qed.

Lemma path_from_root_starts root dir_url :
  str_startswith (_path_from_root root dir_url) "/" = true.
Proof.
  unfold _path_from_root. destruct (negb _); [done|].
  by destruct (str_rstrip_chars "/" _).
Qed.

Abbreviation foreign := (fun e => negb (event_of_root (root_url root_cfg) e)).

Lemma insert_files_of_root dir_url fs (st : Crawl World) n :
  only_adds foreign st
    (fold_left (fun acc f =>
                  insert_file' (_path_from_root (root_url root_cfg) dir_url) f acc)
               fs (st, n)).1.
Proof.
  revert st n. induction fs as [|f fs IH]; intros st n; simpl.
  - apply only_adds_refl.
  - destruct (negb (_should_keep_file (fe_name f) cfg)); [apply IH|].
    eapply only_adds_trans; [|apply IH]. apply only_adds_execute.
    cbn [event_of_root m_root m_path].
    by rewrite String.eqb_refl, path_from_root_starts.
Qed.

Lemma reindex_of_root dir_url parent_url parsed (st : Crawl World) :
  only_adds foreign st
    (reindex' dir_url parent_url (_path_from_root (root_url root_cfg) dir_url) parsed st).
Proof.
  unfold reindex.
  set (st1 := execute (EvUpsertDir _ _) _ st).
  set (st2 := execute (EvDeleteMediaForPath _ _) _ st1).
  pose proof (insert_files_of_root dir_url (files parsed) st2 0) as H3.
  destruct (fold_left _ (files parsed) (st2, 0)) as [st3 n]. simpl in H3.
  assert (H : only_adds foreign st st3).
  { eapply only_adds_trans; [|exact H3].
    eapply only_adds_trans; apply only_adds_execute; cbn [event_of_root d_root].
    - by rewrite String.eqb_refl.
    - by rewrite String.eqb_refl, path_from_root_starts. }
  cbv zeta. match goal with |- context [if ?c then _ else _] => destruct c end.
  - eapply only_adds_trans; [exact H|]. eapply only_adds_trans;
      [|by apply only_adds_execute]. by apply only_adds_same_events.
  - eapply only_adds_trans; [exact H|]. by apply only_adds_same_events.
Qed.

Lemma crawl_pass_of_root incremental item (st : Crawl World) :
  match crawl_pass' incremental item st with
  | Continue st' | Propagate _ st' => only_adds foreign st st'
  end.
Proof.
  unfold crawl_pass. destruct item as [dir_url parent_url].
  destruct (_is_blocked_dir _ cfg); [apply only_adds_refl|].
  destruct (_fetch_page (world st) dir_url) as [w html].
  set (st1 := with_world w (execute (EvFetch dir_url) id st)).
  assert (H1 : only_adds foreign st st1) by by apply (only_adds_execute _ _ id).
  destruct html as [html|]; [|done].
  destruct (parse_directory_page' html dir_url) as [parsed|e]; [|done].
  destruct incremental.
  - set (st2 := execute (EvSelectDir dir_url) id st1).
    assert (H2 : only_adds foreign st st2).
    { eapply only_adds_trans; [exact H1 | by apply only_adds_execute]. }
    destruct (select_dir_modified dir_url (db st1)) as [m|].
    + destruct (bool_decide _).
      * eapply only_adds_trans; [exact H2 | by apply only_adds_same_events].
      * eapply only_adds_trans; [exact H2 | apply reindex_of_root].
    + eapply only_adds_trans; [exact H2 | apply reindex_of_root].
  - eapply only_adds_trans; [exact H1 | apply reindex_of_root].
Qed.

Lemma crawl_loop_of_root incremental fuel (st : Crawl World) :
  only_adds foreign st (crawl_loop' incremental fuel st).1.
Proof.
  revert st. induction fuel as [|fuel IH]; intros st; simpl.
  - destruct (queue st); apply only_adds_refl.
  - destruct (queue st) as [|item rest]; [apply only_adds_refl|].
    pose proof (crawl_pass_of_root incremental item (with_queue rest st)) as Hp.
    destruct (crawl_pass' incremental item (with_queue rest st)) as [st'|e st'].
    + eapply only_adds_trans; [|apply IH].
      eapply only_adds_trans; [|exact Hp]. by apply only_adds_same_events.
    + simpl. eapply only_adds_trans; [|exact Hp]. by apply only_adds_same_events.
Qed.

(** X10: everything a crawl writes or deletes is of its root: the rows
    it upserts carry the root of the crawl, the media rows a path that starts
    with [/], and its deletions are scoped to the root. *)
Theorem crawl_writes_only_its_root (incremental : bool) (fuel : nat)
    (conn : Store) (w : World) :
  Forall (fun e => event_of_root (root_url root_cfg) e = true)
         (events (crawl_root' incremental fuel conn w).1).
Proof.
  assert (Hstart : Forall (fun e => event_of_root (root_url root_cfg) e = true)
                     (events (crawl_start' incremental conn w))).
  { destruct incremental; simpl; [done|].
    repeat constructor; simpl; by rewrite ?String.eqb_refl. }
  assert (Hrun : only_adds foreign (crawl_start' incremental conn w)
                   (crawl_root' incremental fuel conn w).1).
  { unfold crawl_root.
    pose proof (crawl_loop_of_root incremental fuel (crawl_start' incremental conn w)) as H.
    destruct (crawl_loop' incremental fuel _) as [st []]; simpl in *; try done.
    eapply only_adds_trans; [exact H | by apply only_adds_execute]. }
  destruct Hrun as (evs & -> & Hevs). apply Forall_app. split; [done|].
  eapply Forall_impl; [exact Hevs|]. simpl. intros e He. by apply negb_false_iff.
Qed.

(** X11: the bulk deletion that starts a full crawl removes rows only:
    every Directory and MediaFile row of another root is still there, and
    nothing is added. *)
Theorem full_crawl_keeps_other_roots (conn : Store) (w : World) :
  (forall url r, dirs conn !! url = Some r -> d_root r <> root_url root_cfg ->
                 dirs (db (crawl_start' false conn w)) !! url = Some r)
  /\ (forall url r, media conn !! url = Some r -> m_root r <> root_url root_cfg ->
                    media (db (crawl_start' false conn w)) !! url = Some r)
  /\ dirs (db (crawl_start' false conn w)) ⊆ dirs conn
  /\ media (db (crawl_start' false conn w)) ⊆ media conn.
Proof.
  simpl. split_and!.
  - intros url r Hr Hne. by apply map_lookup_filter_Some.
  - intros url r Hr Hne. by apply map_lookup_filter_Some.
  - apply map_filter_subseteq.
  - apply map_filter_subseteq.
Qed.

End CrawlMore.

(** ** More on the parser *)

Section RowsMore.
Variable urljoin : str -> str -> exc str.
Variable urlparse : str -> exc ParseResult.
Variable urlunparse : ParseResult -> str.
Variable unquote : str -> str.

Abbreviation generic_row' := (generic_row urljoin urlparse urlunparse unquote).
Abbreviation h5ai_row' := (h5ai_row urljoin urlparse urlunparse unquote).
Abbreviation datatable_row' := (datatable_row urljoin urlparse urlunparse unquote).
Abbreviation _normalize_url' := (_normalize_url urljoin urlparse urlunparse).
Abbreviation _parse_generic_table' :=
  (_parse_generic_table urljoin urlparse urlunparse unquote).
Abbreviation _parse_h5ai_fallback' :=
  (_parse_h5ai_fallback urljoin urlparse urlunparse unquote).
Abbreviation _parse_discovery_datatable' :=
  (_parse_discovery_datatable urljoin urlparse urlunparse unquote).

(** X12: a row without a second cell or without a link in it adds nothing
    in any of the three loops, and the h5ai loop also drops every row with
    fewer than four cells. *)
Theorem rows_without_link_add_nothing (base : str) (tr : Node) (st : RowLists) :
  (row_href tr = None ->
   generic_row' base tr st = Ok st /\ h5ai_row' base tr st = Ok st
   /\ datatable_row' base tr st = Ok st)
  /\ ((length (find_all "td" tr) < 4)%nat -> h5ai_row' base tr st = Ok st).
Proof.
  split.
  - intros H. split_and!.
    + unfold generic_row. row_inv; done.
    + unfold h5ai_row. row_inv; done.
    + unfold datatable_row. row_inv; done.
  - intros H%Nat.ltb_lt. unfold h5ai_row. by rewrite H.
Qed.

Lemma _normalize_url_ok base href url :
  _normalize_url' base href = Ok url ->
  normalised_url urljoin urlparse urlunparse base url.
Proof.
  intros H. exists href. pose proof H as H'. unfold _normalize_url in H'. unfold_exc.
  destruct (urljoin base href) as [u|]; [|done].
  destruct (urlparse u) as [p|]; [|done]. injection H' as <-.
  by exists (_replace_fragment p "").
Qed.

Abbreviation urls_ok' := (urls_ok urljoin urlparse urlunparse).

Lemma urls_ok_no_rows base : urls_ok' base no_rows.
Proof. by split. Qed.

Lemma urls_ok_merge base a b :
  urls_ok' base a -> urls_ok' base b -> urls_ok' base (merge a b).
Proof. intros [? ?] [? ?]. split; simpl; by apply Forall_app. Qed.

Lemma generic_row_urls base tr d :
  generic_row' base tr no_rows = Ok d -> urls_ok' base d.
Proof.
  intros [-> | (h & l & u & _ & _ & Hu & _ & _ & _ & ->)]%generic_row_inv.
  - apply urls_ok_no_rows.
  - apply _normalize_url_ok in Hu.
    destruct (_ || _); split; simpl; by repeat constructor.
Qed.

Lemma h5ai_row_urls base tr d :
  h5ai_row' base tr no_rows = Ok d -> urls_ok' base d.
Proof.
  intros [-> | (h & l & u & _ & _ & Hu & _ & _ & ->)]%h5ai_row_inv.
  - apply urls_ok_no_rows.
  - apply _normalize_url_ok in Hu.
    destruct (_ || _); split; simpl; by repeat constructor.
Qed.

Lemma datatable_row_urls base tr d :
  datatable_row' base tr no_rows = Ok d -> urls_ok' base d.
Proof.
  intros [-> | (h & l & u & _ & _ & Hu & _ & _ & _ & ->)]
           %datatable_row_inv.
  - apply urls_ok_no_rows.
  - apply _normalize_url_ok in Hu.
    destruct (_ && _); split; simpl; by repeat constructor.
Qed.

Lemma page_of_rows_urls body rows base page :
  (forall tr st, body tr st = (d ← body tr no_rows; mret (merge st d))) ->
  (forall tr d, body tr no_rows = Ok d -> urls_ok' base d) ->
  page_of_rows body rows = Ok page ->
  Forall (fun e => normalised_url urljoin urlparse urlunparse base (de_url e))
         (subdirs page)
  /\ Forall (fun f => normalised_url urljoin urlparse urlunparse base (fe_url f))
            (files page).
Proof.
  intros Hacc Hrow (st & Hst & [= <-])%exc_bind_inv.
  change (urls_ok' base st).
  eapply for_each_invariant;
    [exact Hacc | apply urls_ok_no_rows | apply urls_ok_merge | exact Hrow | exact Hst].
Qed.

(** X13: the URL of every entry of a parsed page is what [_normalize_url]
    returned for some href against the base URL: a URL put together again
    from its parts with an empty fragment. *)
Theorem entry_urls_are_normalised (soup : Node) (base : str) (page : ParsedPage) :
  _parse_generic_table' soup base = Ok page
  \/ _parse_h5ai_fallback' soup base = Ok page
  \/ _parse_discovery_datatable' soup base = Ok page ->
  Forall (fun e => normalised_url urljoin urlparse urlunparse base (de_url e))
         (subdirs page)
  /\ Forall (fun f => normalised_url urljoin urlparse urlunparse base (fe_url f))
            (files page).
Proof.
  intros [H | [H | H]].
  - unfold _parse_generic_table in H.
    destruct (find "table" soup); [|by injection H as <-].
    eapply page_of_rows_urls; [apply generic_row_acc | apply generic_row_urls | exact H].
  - unfold _parse_h5ai_fallback in H.
    destruct (find_id "div" "fallback" soup) as [fb|]; [|by injection H as <-].
    destruct (find "table" fb); [|by injection H as <-].
    eapply page_of_rows_urls; [apply h5ai_row_acc | apply h5ai_row_urls | exact H].
  - unfold _parse_discovery_datatable in H.
    destruct (find_id "table" "example" soup); [|by injection H as <-].
    eapply page_of_rows_urls;
      [apply datatable_row_acc | apply datatable_row_urls | exact H].
Qed.

(** *** One entry a row at most *)

Lemma for_each_count (body : Node -> RowLists -> exc RowLists) (rows : list Node) st :
  (forall tr st, body tr st = (d ← body tr no_rows; mret (merge st d))) ->
  (forall tr d, body tr no_rows = Ok d ->
     (length (l_subdirs d) + length (l_files d) <= 1)%nat) ->
  for_each body rows no_rows = Ok st ->
  (length (l_subdirs st) + length (l_files st) <= length rows)%nat.
Proof.
  intros Hacc Hrow. revert st. induction rows as [|tr rows IH]; intros st; simpl.
  - by intros [= <-].
  - destruct (body tr no_rows) as [d|e] eqn:Hd; [|done].
    rewrite (for_each_acc body Hacc). unfold_exc.
    destruct (for_each body rows no_rows) as [p|e]; [|done].
    intros [= <-]. simpl. rewrite !length_app.
    pose proof (Hrow tr d Hd). pose proof (IH p eq_refl). lia.
Qed.

Lemma generic_row_count base tr d :
  generic_row' base tr no_rows = Ok d ->
  (length (l_subdirs d) + length (l_files d) <= 1)%nat.
Proof.
  intros [-> | (h & l & u & _ & _ & _ & _ & _ & _ & ->)]%generic_row_inv;
    [simpl; lia|]. destruct (_ || _); simpl; lia.
Qed.

Lemma h5ai_row_count base tr d :
  h5ai_row' base tr no_rows = Ok d ->
  (length (l_subdirs d) + length (l_files d) <= 1)%nat.
Proof.
  intros [-> | (h & l & u & _ & _ & _ & _ & _ & ->)]%h5ai_row_inv;
    [simpl; lia|]. destruct (_ || _); simpl; lia.
Qed.

Lemma datatable_row_count base tr d :
  datatable_row' base tr no_rows = Ok d ->
  (length (l_subdirs d) + length (l_files d) <= 1)%nat.
Proof.
  intros [-> | (h & l & u & _ & _ & _ & _ & _ & _ & ->)]%datatable_row_inv;
    [simpl; lia|]. destruct (_ && _); simpl; lia.
Qed.

(** X14: a page never has more entries than its table has rows: each row
    adds one subdirectory, one file, or nothing. *)
Theorem entries_are_at_most_rows (soup : Node) (base : str) (page : ParsedPage) :
  (forall table,
     find "table" soup = Some table -> _parse_generic_table' soup base = Ok page ->
     (length (subdirs page) + length (files page)
      <= length (find_all "tr" table))%nat)
  /\ (forall fb table,
     find_id "div" "fallback" soup = Some fb -> find "table" fb = Some table ->
     _parse_h5ai_fallback' soup base = Ok page ->
     (length (subdirs page) + length (files page)
      <= length (find_all "tr" table))%nat)
  /\ (forall table,
     find_id "table" "example" soup = Some table ->
     _parse_discovery_datatable' soup base = Ok page ->
     (length (subdirs page) + length (files page)
      <= length (find_all "tr" (tbody_or_table table)))%nat).
Proof.
  split_and!.
  - intros table Ht. unfold _parse_generic_table. rewrite Ht.
    intros (st & Hst & [= <-])%exc_bind_inv. simpl.
    eapply for_each_count; [apply generic_row_acc | apply generic_row_count | exact Hst].
  - intros fb table Hfb Ht. unfold _parse_h5ai_fallback. rewrite Hfb, Ht.
    intros (st & Hst & [= <-])%exc_bind_inv. simpl.
    eapply for_each_count; [apply h5ai_row_acc | apply h5ai_row_count | exact Hst].
  - intros table Ht. unfold _parse_discovery_datatable. rewrite Ht. cbv zeta.
    intros (st & Hst & [= <-])%exc_bind_inv. simpl.
    eapply for_each_count;
      [apply datatable_row_acc | apply datatable_row_count | exact Hst].
Qed.

Variable BeautifulSoup : str -> Node.
Abbreviation parse_directory_page' :=
  (parse_directory_page urljoin urlparse urlunparse unquote BeautifulSoup).

(** X15: when the document has the h5ai fallback container, the page is
    parsed by the h5ai loop whatever else the document holds, and a container
    without a table gives the empty page. *)
Theorem fallback_marker_wins (html base : str) (fb : Node) :
  find_id "div" "fallback" (BeautifulSoup html) = Some fb ->
  parse_directory_page' html base = _parse_h5ai_fallback' (BeautifulSoup html) base
  /\ (find "table" fb = None ->
      parse_directory_page' html base = Ok (mkParsedPage None [] [])).
Proof.
  intros Hfb. unfold parse_directory_page. cbv zeta. rewrite Hfb. split; [done|].
  intros Ht. unfold _parse_h5ai_fallback. by rewrite Hfb, Ht.
Qed.

End RowsMore.

(** ** Root configurations and tags *)

Lemma normalize_root_url_endswith url :
  str_endswith (normalize_root_url url) "/" = true.
Proof. apply str_endswith_app. unfold normalize_root_url. eauto. Qed.

Lemma normalize_root_url_idemp url :
  normalize_root_url (normalize_root_url url) = normalize_root_url url.
Proof.
  unfold normalize_root_url, str_rstrip_chars.
  by rewrite str_rstrip_by_snoc, str_rstrip_by_idemp.
Qed.

Section RootConfigsFacts.
Variable expanduser : str -> str.
Variable is_absolute : str -> bool.
Variable path_join : str -> str -> str.

Abbreviation load_root' := (load_root expanduser is_absolute path_join).
Abbreviation load_root_configs' := (load_root_configs expanduser is_absolute path_join).

Lemma load_roots_acc backend_root raws acc :
  fold_left (load_root' backend_root) raws acc
  = acc ++ fold_left (load_root' backend_root) raws [].
Proof.
  revert acc. induction raws as [|r raws IH]; intros acc; simpl.
  - by rewrite app_nil_r.
  - rewrite (IH (load_root' backend_root acc r)), (IH (load_root' backend_root [] r)).
    unfold load_root. destruct (String.eqb _ ""); [done|]. by rewrite app_assoc.
Qed.

(** X16: every root that [load_root_configs] returns comes from an entry
    whose URL is not blank, has that URL stripped and normalised, so it ends
    with [/] and normalising it again changes nothing, and has a cookie file
    exactly when the entry names one. *)
Theorem loaded_roots_are_normalised (raw_roots : list RawRoot) (backend_root : str)
    (rc : RootConfig) :
  rc ∈ load_root_configs' raw_roots backend_root ->
  (exists r, r ∈ raw_roots
     /\ str_strip (default_to "" (raw_url r)) <> ""
     /\ root_url rc = normalize_root_url (str_strip (default_to "" (raw_url r)))
     /\ (cookie_file rc = None <-> str_strip (default_to "" (raw_cookie r)) = ""))
  /\ str_endswith (root_url rc) "/" = true
  /\ normalize_root_url (root_url rc) = root_url rc.
Proof.
  unfold load_root_configs. intros Hin.
  assert (H : exists r, r ∈ raw_roots
     /\ str_strip (default_to "" (raw_url r)) <> ""
     /\ root_url rc = normalize_root_url (str_strip (default_to "" (raw_url r)))
     /\ (cookie_file rc = None <-> str_strip (default_to "" (raw_cookie r)) = "")).
  { induction raw_roots as [|r raws IH]; [by apply elem_of_nil in Hin|].
    simpl in Hin. rewrite load_roots_acc in Hin.
    apply elem_of_app in Hin as [Hin | Hin].
    - exists r. split; [by left|]. unfold load_root in Hin.
      destruct (String.eqb (str_strip (default_to "" (raw_url r))) "") eqn:Hu;
        [by apply elem_of_nil in Hin|].
      apply String.eqb_neq in Hu. apply list_elem_of_singleton in Hin as ->.
      split_and!; try done. simpl.
      destruct (String.eqb (str_strip (default_to "" (raw_cookie r))) "") eqn:Hc.
      + apply String.eqb_eq in Hc. by split.
      + apply String.eqb_neq in Hc. by split.
    - destruct (IH Hin) as (r' & Hr' & H). exists r'. split; [by right | done]. }
  split; [exact H|]. destruct H as (r & _ & _ & -> & _).
  split; [apply normalize_root_url_endswith | apply normalize_root_url_idemp].
Qed.
End RootConfigsFacts.

Section RootTagsFacts.
Variable urlparse : str -> exc ParseResult.

Abbreviation root_tag' := (root_tag urlparse).
Abbreviation build_root_tag_map' := (build_root_tag_map urlparse).

Lemma root_tag_inv r (m m' : gmap str str) :
  root_tag' r m = Ok m' ->
  m' = m
  \/ exists norm tag, m' = <[norm := tag]> m /\ tag_of_root_ok urlparse r norm tag.
Proof.
  unfold root_tag. unfold_exc.
  destruct (String.eqb (str_strip (default_to "" (raw_url r))) "") eqn:Hu;
    [intros [= <-]; by left|].
  apply String.eqb_neq in Hu. intros H. right.
  destruct (String.eqb (str_strip (default_to "" (raw_tag r))) "") eqn:Ht.
  - apply String.eqb_eq in Ht.
    destruct (urlparse _) as [p|] eqn:Hp; [|done].
    destruct (String.eqb (str_strip_chars "/" (path p)) "") eqn:Hpath; simpl in H.
    + apply String.eqb_eq in Hpath. injection H as <-. eexists _, _. split; [done|].
      split_and!; try done. right. split; [done|]. exists p. split; [done|]. by left.
    + apply String.eqb_neq in Hpath. injection H as <-. eexists _, _. split; [done|].
      split_and!; try done. right. split; [done|]. exists p. split; [done|]. right.
      split_and!; try done.
      eapply str_split_pieces, last_piece_elem, str_split_nonempty.
  - apply String.eqb_neq in Ht. injection H as <-. eexists _, _. split; [done|].
    split_and!; try done. by left.
Qed.

(** X17: every key of the tag map is a normalised root URL of an entry
    with a non-blank URL, and its tag is the written tag of the entry,
    stripped, when that is not blank, and otherwise the last piece of the path
    of the URL, which contains no [/], or the host when the path is empty. *)
Theorem root_tags_spec (roots_raw : list RawRoot) (mapping : gmap str str) :
  build_root_tag_map' roots_raw = Ok mapping ->
  forall norm tag, mapping !! norm = Some tag ->
    str_endswith norm "/" = true
    /\ exists r, r ∈ roots_raw /\ tag_of_root_ok urlparse r norm tag.
Proof.
  intros Hb.
  assert (H : for_each root_tag' roots_raw ∅ = Ok mapping).
  { unfold build_root_tag_map in Hb. destruct roots_raw; [|done].
    by injection Hb as <-. }
  clear Hb.
  assert (Hgen : forall l (m m' : gmap str str),
            for_each root_tag' l m = Ok m' ->
            (forall norm tag, m !! norm = Some tag ->
               exists r, r ∈ roots_raw /\ tag_of_root_ok urlparse r norm tag) ->
            (forall r, r ∈ l -> r ∈ roots_raw) ->
            forall norm tag, m' !! norm = Some tag ->
              exists r, r ∈ roots_raw /\ tag_of_root_ok urlparse r norm tag).
  { induction l as [|r l IH]; intros m m' Hl Hm Hsub; simpl in Hl.
    - by injection Hl as <-.
    - destruct (root_tag' r m) as [m1|] eqn:Hr; [|done].
      eapply (IH m1 m' Hl); [|intros r' Hr'; apply Hsub; by right].
      apply root_tag_inv in Hr as [-> | (n & t & -> & Hok)]; [done|].
      intros norm tag. destruct (decide (n = norm)) as [-> | Hne].
      + rewrite lookup_insert_eq. intros [= <-]. exists r. split; [|done].
        apply Hsub. by left.
      + rewrite lookup_insert_ne by done. apply Hm. }
  intros norm tag Hlook.
  destruct (Hgen roots_raw ∅ mapping H) with (norm := norm) (tag := tag)
    as (r & Hr & Hok); try done.
  split; [|by exists r]. destruct Hok as (-> & _). apply normalize_root_url_endswith.
Qed.
End RootTagsFacts.

(** ** The rest on the examples *)

Abbreviation demo_crawl_pass :=
  (crawl_pass demo_urljoin demo_urlparse demo_urlunparse demo_unquote
     demo_BeautifulSoup unit demo_fetch_page demo_root demo_cfg).

Lemma failed_fetch_is_discarded_witness :
  let st := mkCrawl (mkStore ∅ ∅) [] tt
              [("http://x/Movies/up/", Some "http://x/Movies/")] 0 0 0 in
  exists st',
    demo_crawl_loop false 1 st = demo_crawl_loop false 0 st'
    /\ db st' = db st /\ queue st' = [] /\ world st' = tt
    /\ events st' = events st ++ [EvFetch "http://x/Movies/up/"].
Proof.
  eapply (failed_fetch_is_discarded demo_urljoin demo_urlparse demo_urlunparse
            demo_unquote demo_BeautifulSoup unit demo_fetch_page demo_root demo_cfg
            false 0 _ "http://x/Movies/up/" (Some "http://x/Movies/") [] tt);
    by vm_compute.
Defined.

Lemma reindexed_directory_row_witness :
  let st := mkCrawl (mkStore ∅ ∅) [] tt [] 0 0 0 in
  exists parsed st',
    demo_parse "<generic>" "http://x/Movies/" = Ok parsed
    /\ demo_crawl_pass false ("http://x/Movies/", None) st = Continue st'
    /\ dirs (db st') !! "http://x/Movies/"
       = Some (mkDirRow "http://x/Movies/" None "" (Some "2024-01-02"))
    /\ select_dir_modified "http://x/Movies/" (db st') = Some (Some "2024-01-02")
    /\ queue st' = [("http://x/Movies/A/", Some "http://x/Movies/");
                    ("http://x/Movies/up/", Some "http://x/Movies/")].
Proof.
  cbv zeta.
  destruct (reindexed_directory_row demo_urljoin demo_urlparse demo_urlunparse
              demo_unquote demo_BeautifulSoup unit demo_fetch_page demo_root demo_cfg
              false (mkCrawl (mkStore ∅ ∅) [] tt [] 0 0 0) "http://x/Movies/" None tt
              "<generic>"
              (mkParsedPage (Some "2024-01-02")
                 [mkParsedDirEntry "A" "http://x/Movies/A/" (Some "2024-01-01");
                  mkParsedDirEntry "Parent Directory" "http://x/Movies/up/" None]
                 [mkParsedFileEntry "b.mkv" "http://x/Movies/b.mkv" (Some "2024-01-02")
                    (Some "700M")]))
    as (st' & Hpass & Hrow & Hsel & _ & Hq & _);
    [by vm_compute | by vm_compute | by vm_compute | by left |].
  eexists _, st'. split_and!; [by vm_compute | exact Hpass | exact Hrow | exact Hsel
                              | exact Hq].
Defined.

Lemma reindexed_media_rows_witness :
  let st := mkCrawl (mkStore ∅ ∅) [] tt [] 0 0 0 in
  exists st',
    demo_crawl_pass false ("http://x/Movies/", None) st = Continue st'
    /\ exists f', fe_url f' = "http://x/Movies/b.mkv"
         /\ media (db st') !! "http://x/Movies/b.mkv"
            = Some (media_row_of "http://x/Movies/" "/" f').
Proof.
  cbv zeta.
  destruct (reindexed_media_rows demo_urljoin demo_urlparse demo_urlunparse
              demo_unquote demo_BeautifulSoup unit demo_fetch_page demo_root demo_cfg
              false (mkCrawl (mkStore ∅ ∅) [] tt [] 0 0 0) "http://x/Movies/" None tt
              "<generic>"
              (mkParsedPage (Some "2024-01-02")
                 [mkParsedDirEntry "A" "http://x/Movies/A/" (Some "2024-01-01");
                  mkParsedDirEntry "Parent Directory" "http://x/Movies/up/" None]
                 [mkParsedFileEntry "b.mkv" "http://x/Movies/b.mkv" (Some "2024-01-02")
                    (Some "700M")]))
    as (st' & Hpass & _ & Hkept & _);
    [by vm_compute | by vm_compute | by vm_compute | by left |].
  exists st'. split; [exact Hpass|].
  destruct (Hkept (mkParsedFileEntry "b.mkv" "http://x/Movies/b.mkv"
                     (Some "2024-01-02") (Some "700M")))
    as (f' & _ & _ & Hurl & Hrow); [by left | by vm_compute|].
  exists f'. by split.
Defined.

Lemma reindexing_pass_events_witness :
  let st := mkCrawl (mkStore ∅ ∅) [] tt [] 19 0 0 in
  exists st',
    demo_crawl_pass false ("http://x/Movies/", None) st = Continue st'
    /\ events st'
       = [EvFetch "http://x/Movies/";
          EvUpsertDir "http://x/Movies/"
            (mkDirRow "http://x/Movies/" None "" (Some "2024-01-02"));
          EvDeleteMediaForPath "http://x/Movies/" "/";
          EvUpsertMedia "http://x/Movies/b.mkv"
            (mkMediaRow "http://x/Movies/" "/" "b.mkv" (Some "2024-01-02") (Some "700M"));
          EvCommit].
Proof.
  cbv zeta.
  destruct (reindexing_pass_events demo_urljoin demo_urlparse demo_urlunparse
              demo_unquote demo_BeautifulSoup unit demo_fetch_page demo_root demo_cfg
              false (mkCrawl (mkStore ∅ ∅) [] tt [] 19 0 0) "http://x/Movies/" None tt
              "<generic>"
              (mkParsedPage (Some "2024-01-02")
                 [mkParsedDirEntry "A" "http://x/Movies/A/" (Some "2024-01-01");
                  mkParsedDirEntry "Parent Directory" "http://x/Movies/up/" None]
                 [mkParsedFileEntry "b.mkv" "http://x/Movies/b.mkv" (Some "2024-01-02")
                    (Some "700M")]))
    as (st' & Hpass & Hev);
    [by vm_compute | by vm_compute | by vm_compute | by left |].
  exists st'. split; [exact Hpass|]. rewrite Hev. by vm_compute.
Defined.

Lemma parse_error_aborts_crawl_witness :
  exists st',
    crawl_root strict_urljoin demo_urlparse demo_urlunparse demo_unquote
      more_BeautifulSoup unit broken_fetch_page demo_root demo_cfg false 3
      (mkStore ∅ ∅) tt = (st', Raised ValueError)
    /\ events st' = [EvDeleteMediaForRoot "http://x/Movies/";
                     EvDeleteDirsForRoot "http://x/Movies/"; EvCommit;
                     EvFetch "http://x/Movies/"].
Proof.
  destruct (proj2 (parse_error_aborts_crawl strict_urljoin demo_urlparse
                     demo_urlunparse demo_unquote more_BeautifulSoup unit
                     broken_fetch_page demo_root demo_cfg false 2 ValueError)
              (mkStore ∅ ∅) tt tt "<broken>")
    as (st' & Hrun & _ & Hev); [by vm_compute | by vm_compute | by vm_compute |].
  exists st'. split; [exact Hrun | exact Hev].
Defined.

Lemma entry_urls_are_normalised_witness :
  exists page,
    demo_parse_generic generic_page "http://x/Movies/" = Ok page
    /\ Forall (fun e => normalised_url demo_urljoin demo_urlparse demo_urlunparse
                          "http://x/Movies/" (de_url e)) (subdirs page)
    /\ Forall (fun f => normalised_url demo_urljoin demo_urlparse demo_urlunparse
                          "http://x/Movies/" (fe_url f)) (files page).
Proof.
  eexists. split; [by vm_compute|].
  apply (entry_urls_are_normalised demo_urljoin demo_urlparse demo_urlunparse
           demo_unquote generic_page "http://x/Movies/").
  left. by vm_compute.
Defined.

Lemma fallback_marker_wins_witness :
  parse_directory_page demo_urljoin demo_urlparse demo_urlunparse demo_unquote
    more_BeautifulSoup "<empty fallback>" "http://x/Movies/"
  = Ok (mkParsedPage None [] [])
  /\ find "table" empty_fallback_page <> None.
Proof.
  split; [|by vm_compute].
  assert (Hfb : find_id "div" "fallback" (more_BeautifulSoup "<empty fallback>")
                = Some (Tag "div" [("id", "fallback")] [])) by by vm_compute.
  apply (proj2 (fallback_marker_wins demo_urljoin demo_urlparse demo_urlunparse
                  demo_unquote more_BeautifulSoup "<empty fallback>"
                  "http://x/Movies/" _ Hfb)).
  by vm_compute.
Defined.

Lemma loaded_roots_are_normalised_witness :
  load_root_configs demo_expanduser demo_is_absolute demo_path_join
    [mkRawRoot (Some " http://x/Movies// ") (Some "cookies.txt") None;
     mkRawRoot (Some "  ") None None; mkRawRoot None None None;
     mkRawRoot (Some "http://y/TV") (Some " ") None] "/srv/cine"
  = [mkRootConfig "http://x/Movies/" (Some "/srv/cine/cookies.txt");
     mkRootConfig "http://y/TV/" None]
  /\ normalize_root_url "http://y/TV/" = "http://y/TV/".
Proof.
  split; [by vm_compute|].
  assert (Hin : mkRootConfig "http://y/TV/" None
                ∈ load_root_configs demo_expanduser demo_is_absolute demo_path_join
                    [mkRawRoot (Some " http://x/Movies// ") (Some "cookies.txt") None;
                     mkRawRoot (Some "  ") None None; mkRawRoot None None None;
                     mkRawRoot (Some "http://y/TV") (Some " ") None] "/srv/cine").
  { apply elem_of_cons. right. apply elem_of_cons. by left. }
  apply (proj2 (proj2 (loaded_roots_are_normalised demo_expanduser demo_is_absolute
                  demo_path_join _ _ _ Hin))).
Defined.

Lemma root_tags_spec_witness :
  let roots := [mkRawRoot (Some " http://x/Movies// ") None (Some " MOV ");
                mkRawRoot (Some "http://y/TV") None None] in
  build_root_tag_map demo_urlparse roots
  = Ok (<["http://y/TV/" := "TV"]> (<["http://x/Movies/" := "MOV"]> ∅))
  /\ exists r, r ∈ roots /\ tag_of_root_ok demo_urlparse r "http://y/TV/" "TV".
Proof.
  cbv zeta.
  assert (H : build_root_tag_map demo_urlparse
                [mkRawRoot (Some " http://x/Movies// ") None (Some " MOV ");
                 mkRawRoot (Some "http://y/TV") None None]
              = Ok (<["http://y/TV/" := "TV"]> (<["http://x/Movies/" := "MOV"]> ∅))).
  { reflexivity. }
  split; [exact H|].
  apply (root_tags_spec demo_urlparse _ _ H "http://y/TV/" "TV").
  apply lookup_insert_eq.
Defined.

(** ** Whole runs *)

Section Runs.
Variable urljoin : str -> str -> exc str.
Variable urlparse : str -> exc ParseResult.
Variable urlunparse : ParseResult -> str.
Variable unquote : str -> str.
Variable BeautifulSoup : str -> Node.
Variable World : Type.
Variable _fetch_page : World -> str -> World * option str.
Variable root_cfg : RootConfig.
Variable cfg : CrawlConfig.

Abbreviation parse_directory_page' :=
  (parse_directory_page urljoin urlparse urlunparse unquote BeautifulSoup).
Abbreviation crawl_root' :=
  (crawl_root urljoin urlparse urlunparse unquote BeautifulSoup World _fetch_page
     root_cfg cfg).

(** X18: an incremental crawl whose root page still has the stored token
    ends after that one page: it fetches the root, reads the stored token and
    commits, writes nothing to the store and visits no other directory,
    whatever has changed below the root. *)
Theorem unchanged_root_ends_incremental_crawl (fuel : nat) (conn : Store) (w w' : World)
    (html : str) (parsed : ParsedPage) (stored : DirRow) :
  _is_blocked_dir (_path_from_root (root_url root_cfg) (root_url root_cfg)) cfg = false ->
  _fetch_page w (root_url root_cfg) = (w', Some html) ->
  parse_directory_page' html (root_url root_cfg) = Ok parsed ->
  dirs conn !! root_url root_cfg = Some stored ->
  d_modified stored = dir_modified parsed ->
  exists st,
    crawl_root' true (S fuel) conn w = (st, Drained)
    /\ db st = conn
    /\ queue st = []
    /\ events st = [EvFetch (root_url root_cfg); EvSelectDir (root_url root_cfg); EvCommit].
Proof.
  intros Hb Hf Hp Hrow Hsame. unfold crawl_root. simpl. unfold crawl_pass.
  rewrite Hb. simpl. rewrite Hf, Hp. unfold select_dir_modified. simpl.
  rewrite Hrow. simpl. rewrite bool_decide_eq_true_2 by done.
  destruct fuel; simpl; by eexists.
Qed.

(** X19: a full crawl of a root whose page fails to load still does its bulk
    deletion first: it ends with no row of the root left in the store, having
    deleted, committed, tried the one fetch and committed again. *)
Theorem full_crawl_of_unreachable_root (fuel : nat) (conn : Store) (w w' : World) :
  _is_blocked_dir (_path_from_root (root_url root_cfg) (root_url root_cfg)) cfg = false ->
  _fetch_page w (root_url root_cfg) = (w', None) ->
  exists st,
    crawl_root' false (S fuel) conn w = (st, Drained)
    /\ no_rows_of (root_url root_cfg) (db st)
    /\ events st = [EvDeleteMediaForRoot (root_url root_cfg);
                    EvDeleteDirsForRoot (root_url root_cfg); EvCommit;
                    EvFetch (root_url root_cfg); EvCommit].
Proof.
  intros Hb Hf. unfold crawl_root. simpl. unfold crawl_pass.
  rewrite Hb. simpl. rewrite Hf.
  destruct fuel; simpl; (eexists; split; [done|]; split; [|done]).
  all: split; simpl; intros url r Hr; by apply map_lookup_filter_Some in Hr as [_ Hr].
Qed.
End Runs.

Lemma unchanged_root_ends_incremental_crawl_witness :
  let conn := mkStore {["http://x/Movies/" :=
                          mkDirRow "http://x/Movies/" None "" (Some "2024-01-02")]} ∅ in
  exists st,
    demo_crawl_root true 5 conn tt = (st, Drained)
    /\ db st = conn /\ queue st = []
    /\ events st = [EvFetch "http://x/Movies/"; EvSelectDir "http://x/Movies/"; EvCommit].
Proof.
  cbv zeta.
  eapply (unchanged_root_ends_incremental_crawl demo_urljoin demo_urlparse
            demo_urlunparse demo_unquote demo_BeautifulSoup unit demo_fetch_page
            demo_root demo_cfg 4 _ tt tt "<generic>").
  - by vm_compute.
  - by vm_compute.
  - by vm_compute.
  - apply lookup_singleton_eq.
  - reflexivity.
Defined.

Lemma full_crawl_of_unreachable_root_witness :
  let conn := mkStore {["http://z/Gone/" :=
                          mkDirRow "http://z/Gone/" None "" (Some "2023-05-05")]} ∅ in
  exists st,
    crawl_root demo_urljoin demo_urlparse demo_urlunparse demo_unquote
      demo_BeautifulSoup unit demo_fetch_page (mkRootConfig "http://z/Gone/" None)
      demo_cfg false 5 conn tt = (st, Drained)
    /\ no_rows_of "http://z/Gone/" (db st)
    /\ events st = [EvDeleteMediaForRoot "http://z/Gone/";
                    EvDeleteDirsForRoot "http://z/Gone/"; EvCommit;
                    EvFetch "http://z/Gone/"; EvCommit].
Proof.
  cbv zeta.
  eapply (full_crawl_of_unreachable_root demo_urljoin demo_urlparse demo_urlunparse
            demo_unquote demo_BeautifulSoup unit demo_fetch_page
            (mkRootConfig "http://z/Gone/" None) demo_cfg 4 _ tt tt); by vm_compute.
Defined.
